(** * soda-core: the contract parser front end

    A shallow embedding of
    - [soda/contract/parser/contract_parser.py] (class [ContractParser]) and
    - [soda/common/utilities.py] ([is_soda_library_available]),
    together with the properties the specification states about them.

    Python objects that are mutated in place (the parser itself, the
    diagnostics sinks) live in an explicit session state; exceptions are an
    outcome of every operation.  The YAML library and the plugins are external
    collaborators: the loader is a parameter of the development and a plugin
    is an arbitrary transformer of the sinks. *)

From stdpp Require Import gmap strings list fin_maps pretty.

Open Scope string_scope.
Open Scope list_scope.

Set Warnings "-register-all".

(** ** Python exceptions *)

(** [MarkedYAMLError] carries the optional [problem_mark] (line, column) of
    the tokenizer and its rendering [str(e)]. *)
Inductive PyExn :=
| AttributeError (type_name attr : string)
| ModuleNotFoundError (module_name : string)
| MarkedYAMLError (problem_mark : option (nat * nat)) (str_e : string)
| OtherException (class_name : string).

Inductive Outcome (A : Type) :=
| Return (a : A)
| Raise (e : PyExn).
Arguments Return {A} a.
Arguments Raise {A} e.

Definition raised {A} (o : Outcome A) : bool :=
  match o with Raise _ => true | Return _ => false end.

(** ** soda/common/utilities.py *)

(** The [from soda_library... import CloudCheckMixin] statement either
    completes or raises; which one is decided by the interpreter's module
    path, so its outcome is the argument. *)
Definition is_soda_library_available (import_cloud_check : Outcome unit) : Outcome bool :=
  match import_cloud_check with
  | Return _ => Return true
  | Raise (ModuleNotFoundError _) => Return false
  | Raise e => Raise e
  end.

(** ** Locations and diagnostics *)

Record ParserLocation := {
  loc_file_path : string;
  line : nat;
  column : nat
}.

Inductive Severity := Debug | Warning | Error.

(** Modelled from the spec: [ParserLogs] (soda/contract/parser/parser_log.py),
    whose source is not available.  A diagnostic entry is
    (severity, message, optional location, optional documentation reference)
    and a sink is an ordered, append-only sequence of entries. *)
Record LogEntry := {
  severity : Severity;
  message : string;
  location : option ParserLocation;
  docs_ref : option string
}.

#[global] Instance ParserLocation_eq_dec : EqDecision ParserLocation.
Proof. solve_decision. Defined.
#[global] Instance Severity_eq_dec : EqDecision Severity.
Proof. solve_decision. Defined.
#[global] Instance LogEntry_eq_dec : EqDecision LogEntry.
Proof. solve_decision. Defined.

(** A sink is a Python object shared by reference: the caller's [logs]
    argument and the parser's [self.logs] may or may not be the same one. *)
Definition SinkRef := nat.

Definition sink_of (h : gmap nat (list LogEntry)) (r : SinkRef) : list LogEntry :=
  default [] (h !! r).

Definition sink_append (r : SinkRef) (es : list LogEntry) (h : gmap nat (list LogEntry))
  : gmap nat (list LogEntry) :=
  <[r := sink_of h r ++ es]> h.

Definition errors_of (es : list LogEntry) : list LogEntry :=
  filter (fun e => severity e = Error) es.

(** ** The generic document tree returned by ruamel.yaml *)

(** What [YAML().load] hands back in round-trip mode.  A [CommentedMap]
    keeps its keys in document order and knows the (line, column) of every
    value; scalars are plain Python objects, of which only the class name and,
    for text, the content matter here. *)
Inductive RuamelObject :=
| CommentedMap (items : list (string * (nat * nat) * RuamelObject))
| CommentedSeq (elements : list RuamelObject)
| PyStr (type_name : string) (text : string)
| PyScalar (type_name : string)
| PyNone.

(** [type(o).__name__] *)
Definition type_name_of (o : RuamelObject) : string :=
  match o with
  | CommentedMap _ => "CommentedMap"
  | CommentedSeq _ => "CommentedSeq"
  | PyStr n _ => n
  | PyScalar n => n
  | PyNone => "NoneType"
  end.

Record YamlObject := {
  ruamel_object : list (string * (nat * nat) * RuamelObject);
  yo_location : ParserLocation
}.

Record YamlString := {
  value : string;
  ys_location : ParserLocation
}.

(** ** Typed files *)

Inductive FileClass := ParserDataContractFile | ParserDatasourceFile | ParserOtherFile.

#[global] Instance FileClass_eq_dec : EqDecision FileClass.
Proof. solve_decision. Defined.

(** Modelled from the spec: the [ParserFile] classes
    (parser_file.py, parser_data_contract_file.py, parser_datasource_file.py),
    whose sources are not available.  A typed file has a path, the raw
    content, the root mapping and the sink it was built with; its class is one
    of the variants. *)
Record ParserFile := {
  file_class : FileClass;
  file_logs : SinkRef;
  file_path : string;
  file_content_str : string;
  root_yaml_object : YamlObject
}.

Fixpoint lookup_key (k : string) (items : list (string * (nat * nat) * RuamelObject))
  : option ((nat * nat) * RuamelObject) :=
  match items with
  | [] => None
  | (k', pos, v) :: rest => if decide (k' = k) then Some (pos, v) else lookup_key k rest
  end.

(** Modelled from the spec: a typed accessor is a string-typed scalar
    (value and exact source position) when the field is present and holds
    text, and is not one otherwise; it never raises. *)
Definition string_field (k : string) (f : ParserFile) : option YamlString :=
  match lookup_key k (ruamel_object (root_yaml_object f)) with
  | Some ((l, c), PyStr _ s) =>
      Some {| value := s;
              ys_location := {| loc_file_path := file_path f; line := l; column := c |} |}
  | _ => None
  end.

(** [file.name] of a datasource file, [file.datasource] of a data contract
    file: [Some] stands for [isinstance(_, YamlString)]. *)
Definition name (f : ParserFile) : option YamlString := string_field "name" f.
Definition datasource (f : ParserFile) : option YamlString := string_field "datasource" f.

(** ** Plugins, resolver, parser object *)

(** A plugin is foreign code: [plugin.parse(file)] may append to any sink
    and may raise.  [plugin_id] is the object's identity. *)
Record ParserPlugin := {
  plugin_id : nat;
  plugin_parse : ParserFile -> gmap nat (list LogEntry) -> Outcome unit * gmap nat (list LogEntry)
}.

Record ParserResolver := {
  resolve_variables : string -> string
}.

(** Modelled from the spec: the default [ParserResolver()] is the no-op
    resolver. *)
Definition ParserResolver_default : ParserResolver :=
  {| resolve_variables := fun s => s |}.

(** The attributes of a [ContractParser] instance.  [logs] is an attribute
    that the methods read as [self.logs]; an instance has it only if somebody
    assigned it. *)
Record ContractParser := {
  files : list ParserFile;
  plugins : list ParserPlugin;
  variable_resolver : ParserResolver;
  logs : option SinkRef
}.

(** [ContractParser.__init__]: [self.yaml], [self.files], [self.plugins],
    [self.variable_resolver] are assigned, nothing else. *)
Definition __init__ (variable_resolver : ParserResolver) : ContractParser :=
  {| files := [];
     plugins := [];
     variable_resolver := variable_resolver;
     logs := None |}.

(** ** Sessions *)

(** The calls the parser makes to its collaborators and the mutation of its
    registry, in the order they happen. *)
Inductive Event :=
| EvResolve (text : string)
| EvYamlLoad (text : string)
| EvAppendFile (f : ParserFile)
| EvPluginParse (plugin : nat) (f : ParserFile).

Record Session := {
  self : ContractParser;
  heap : gmap nat (list LogEntry);
  calls : list Event
}.

Definition M (A : Type) : Type := Session -> Outcome A * Session.

Definition ret {A} (a : A) : M A := fun s => (Return a, s).
Definition raise {A} (e : PyExn) : M A := fun s => (Raise e, s).
Definition bind {A B} (m : M A) (k : A -> M B) : M B :=
  fun s => match m s with
           | (Return a, s') => k a s'
           | (Raise e, s') => (Raise e, s')
           end.

Notation "x <- m ;; k" := (bind m (fun x => k))
  (at level 100, m at next level, right associativity).
Notation "m ;;; k" := (bind m (fun _ => k))
  (at level 100, right associativity).

(** [try: body except MarkedYAMLError as e: handler(e)] *)
Definition try_except_MarkedYAMLError {A} (body : M A)
    (handler : option (nat * nat) -> string -> M A) : M A :=
  fun s => match body s with
           | (Raise (MarkedYAMLError mark str_e), s') => handler mark str_e s'
           | r => r
           end.

Fixpoint for_each {A} (l : list A) (body : A -> M unit) : M unit :=
  match l with
  | [] => ret tt
  | x :: rest => body x ;;; for_each rest body
  end.

Definition emit (r : SinkRef) (e : LogEntry) : M unit :=
  fun s => (Return tt, {| self := self s; heap := sink_append r [e] (heap s); calls := calls s |}).

(** [logs.debug(msg)] and [logs.error(message=, location=, docs_ref=)];
    an argument that is not passed is [None]. *)
Definition logs_debug (r : SinkRef) (msg : string) : M unit :=
  emit r {| severity := Debug; message := msg; location := None; docs_ref := None |}.
Definition logs_error (r : SinkRef) (msg : string)
    (loc : option ParserLocation) (ref : option string) : M unit :=
  emit r {| severity := Error; message := msg; location := loc; docs_ref := ref |}.

(** Evaluating the expression [self.logs]. *)
Definition self_logs : M SinkRef :=
  fun s => match logs (self s) with
           | Some r => (Return r, s)
           | None => (Raise (AttributeError "ContractParser" "logs"), s)
           end.

Definition self_files : M (list ParserFile) := fun s => (Return (files (self s)), s).
Definition self_plugins : M (list ParserPlugin) := fun s => (Return (plugins (self s)), s).

(** [self.files.append(f)] *)
Definition files_append (f : ParserFile) : M unit :=
  fun s => (Return tt,
            {| self := {| files := files (self s) ++ [f];
                          plugins := plugins (self s);
                          variable_resolver := variable_resolver (self s);
                          logs := logs (self s) |};
               heap := heap s;
               calls := calls s ++ [EvAppendFile f] |}).

(** [self.variable_resolver.resolve_variables(text)] *)
Definition call_resolve_variables (text : string) : M string :=
  fun s => (Return (resolve_variables (variable_resolver (self s)) text),
            {| self := self s; heap := heap s; calls := calls s ++ [EvResolve text] |}).

(** [plugin.parse(file=f)] *)
Definition call_plugin_parse (p : ParserPlugin) (f : ParserFile) : M unit :=
  fun s => let '(o, h) := plugin_parse p f (heap s) in
           (o, {| self := self s; heap := h; calls := calls s ++ [EvPluginParse (plugin_id p) f] |}).

Section Parser.

(** [self.yaml.load]: the ruamel.yaml round-trip loader. *)
Variable yaml_load : string -> Outcome RuamelObject.

Definition call_yaml_load (text : string) : M RuamelObject :=
  fun s => (yaml_load text,
            {| self := self s; heap := heap s; calls := calls s ++ [EvYamlLoad text] |}).

(** [ContractParser._parse_yaml_str]; falling off the handler returns
    [None]. *)
Definition _parse_yaml_str (file_path file_content_str : string) : M RuamelObject :=
  try_except_MarkedYAMLError
    (call_yaml_load file_content_str)
    (fun problem_mark str_e =>
       l <- self_logs ;;
       match problem_mark with
       | Some (ln, col) =>
           logs_error l ("Invalid YAML: " +:+ str_e)
             (Some {| loc_file_path := file_path; line := ln; column := col |}) None ;;;
           ret PyNone
       | None => raise (AttributeError "NoneType" "line")
       end).

(** [ContractParser.parse] *)
Definition parse (contract_yaml_str file_path : string) (logs : SinkRef)
  : M (option ParserFile) :=
  resolved_file_content_str <- call_resolve_variables contract_yaml_str ;;
  logs_debug logs ("Parsing file '" +:+ file_path +:+ "'") ;;;
  root_ruamel_object <- _parse_yaml_str file_path resolved_file_content_str ;;
  match root_ruamel_object with
  | CommentedMap items =>
      let root_yaml_object :=
        {| ruamel_object := items;
           yo_location := {| loc_file_path := file_path; line := 0; column := 0 |} |} in
      l <- self_logs ;;
      let parser_file :=
        {| file_class := ParserDataContractFile;
           file_logs := l;
           file_path := file_path;
           file_content_str := contract_yaml_str;
           root_yaml_object := root_yaml_object |} in
      files_append parser_file ;;;
      ps <- self_plugins ;;
      for_each ps (fun plugin => call_plugin_parse plugin parser_file) ;;;
      ret None
  | other =>
      let actual_type_name :=
        match other with
        | CommentedSeq _ => "list"
        | _ => type_name_of other
        end in
      logs_error logs
        ("All top level YAML elements must be objects, but was '" +:+ actual_type_name +:+ "'")
        None (Some "04-data-contract-language.md#file-type") ;;;
      ret None
  end.

End Parser.

(** ** Python dictionaries

    A [dict] iterates in insertion order, so it is a list of items with
    pairwise distinct keys. *)

Fixpoint dict_get {V} (d : list (string * V)) (k : string) : option V :=
  match d with
  | [] => None
  | (k', v) :: rest => if decide (k' = k) then Some v else dict_get rest k
  end.

(** [d.setdefault(k, v0)] *)
Fixpoint dict_setdefault {V} (k : string) (v0 : V) (d : list (string * V)) : list (string * V) :=
  match d with
  | [] => [(k, v0)]
  | (k', v) :: rest =>
      if decide (k' = k) then (k', v) :: rest else (k', v) :: dict_setdefault k v0 rest
  end.

(** [d[k].append(x)] on a dictionary of lists whose key [k] is present. *)
Fixpoint dict_append_at {X} (k : string) (x : X) (d : list (string * list X))
  : list (string * list X) :=
  match d with
  | [] => []
  | (k', v) :: rest =>
      if decide (k' = k) then (k', v ++ [x]) :: rest else (k', v) :: dict_append_at k x rest
  end.

Definition dict_keys {V} (d : list (string * V)) : list string := map fst d.

(** [d[k]] *)
Definition dict_getitem {V} (d : list (string * V)) (k : string) : M V :=
  match dict_get d k with
  | Some v => ret v
  | None => raise (OtherException "KeyError")
  end.

(** [{k: v for k, v in d.items() if cond(k, v)}] *)
Fixpoint dict_comprehension {V} (cond : string -> V -> M bool) (d : list (string * V))
  : M (list (string * V)) :=
  match d with
  | [] => ret []
  | (k, v) :: rest =>
      b <- cond k v ;;
      kept <- dict_comprehension cond rest ;;
      ret (if b : bool then (k, v) :: kept else kept)
  end.

(** ** Semantic validation *)

(** One turn of the first loop of [_validate_datasource_names]. *)
Definition collect_declaration (datasource_locations : list (string * list ParserLocation))
    (file : ParserFile) : list (string * list ParserLocation) :=
  if decide (file_class file = ParserDatasourceFile) then
    match name file with
    | Some file_name =>
        let datasource_name := value file_name in
        dict_append_at datasource_name (ys_location file_name)
          (dict_setdefault datasource_name [] datasource_locations)
    | None => datasource_locations
    end
  else datasource_locations.

Definition duplicate_message (datasource_name : string) (n : nat) : string :=
  "Datasource '" +:+ datasource_name +:+ "' was declared " +:+ pretty n +:+ " times".

Definition undefined_message (datasource_reference : string) : string :=
  "Datasource '" +:+ datasource_reference +:+ "' is not defined".

(** [ContractParser._validate_datasource_names] *)
Definition _validate_datasource_names : M unit :=
  fs <- self_files ;;
  let datasource_locations := fold_left collect_declaration fs [] in
  duplicate_declared_datasources <-
    dict_comprehension
      (fun k _ => v <- dict_getitem datasource_locations k ;; ret (bool_decide (1 < length v)))
      datasource_locations ;;
  for_each (dict_keys duplicate_declared_datasources)
    (fun duplicate_declared_datasource_name =>
       locations <- dict_getitem duplicate_declared_datasources duplicate_declared_datasource_name ;;
       for_each locations
         (fun location =>
            l <- self_logs ;;
            logs_error l
              (duplicate_message duplicate_declared_datasource_name (length locations))
              (Some location) None)) ;;;
  let declared_datasource_names := dict_keys datasource_locations in
  fs <- self_files ;;
  for_each fs
    (fun file =>
       if decide (file_class file = ParserDataContractFile) then
         match datasource file with
         | Some file_datasource =>
             let datasource_reference := value file_datasource in
             if bool_decide (datasource_reference ∈ declared_datasource_names)
             then ret tt
             else
               l <- self_logs ;;
               logs_error l (undefined_message datasource_reference)
                 (Some (ys_location file_datasource)) None
         | None => ret tt
         end
       else ret tt).

(** [ContractParser.validate_semantics] *)
Definition validate_semantics : M unit := _validate_datasource_names.

(** ** What one validation run reports

    The diagnostics of [_validate_datasource_names] as a function of the
    registry: the loops of the method are shown below to emit exactly these
    entries, in this order. *)

Definition error_entry (msg : string) (loc : ParserLocation) : LogEntry :=
  {| severity := Error; message := msg; location := Some loc; docs_ref := None |}.

Definition declarations (fs : list ParserFile) : list (string * list ParserLocation) :=
  fold_left collect_declaration fs [].

Definition duplicate_entries (kv : string * list ParserLocation) : list LogEntry :=
  map (fun loc => error_entry (duplicate_message kv.1 (length kv.2)) loc) kv.2.

Definition duplicate_diagnostics (fs : list ParserFile) : list LogEntry :=
  flat_map duplicate_entries (filter (fun kv => 1 < length kv.2) (declarations fs)).

Definition undefined_entries (declared : list string) (file : ParserFile) : list LogEntry :=
  if decide (file_class file = ParserDataContractFile) then
    match datasource file with
    | Some ds =>
        if bool_decide (value ds ∈ declared) then []
        else [error_entry (undefined_message (value ds)) (ys_location ds)]
    | None => []
    end
  else [].

Definition undefined_diagnostics (fs : list ParserFile) : list LogEntry :=
  flat_map (undefined_entries (dict_keys (declarations fs))) fs.

Definition validation_diagnostics (fs : list ParserFile) : list LogEntry :=
  duplicate_diagnostics fs ++ undefined_diagnostics fs.

(** [self.logs.error(...)] once per entry. *)
Definition report (es : list LogEntry) : M unit :=
  for_each es (fun e => l <- self_logs ;; emit l e).

(** The declaration sites of datasource [k], in registry order. *)
Definition declaration_sites (k : string) (fs : list ParserFile) : list ParserLocation :=
  flat_map
    (fun f =>
       if decide (file_class f = ParserDatasourceFile) then
         match name f with
         | Some n => if decide (value n = k) then [ys_location n] else []
         | None => []
         end
       else [])
    fs.

(** ** Callers *)

(** A caller that goes on after a failed call:
    [try: m except Exception: pass]. *)
Definition attempt {A} (m : M A) : M unit :=
  fun s => (Return tt, snd (m s)).

Definition set_heap (h : gmap nat (list LogEntry)) (s : Session) : Session :=
  {| self := self s; heap := h; calls := calls s |}.

(** A parser as [ContractParser()] builds it, no sink written to yet. *)
Definition fresh_session : Session :=
  {| self := __init__ ParserResolver_default; heap := ∅; calls := [] |}.

(** The same after [parser.logs = r] and the registration of [ps]. *)
Definition configured (r : SinkRef) (ps : list ParserPlugin) (fs : list ParserFile) : Session :=
  {| self := {| files := fs; plugins := ps;
                variable_resolver := ParserResolver_default; logs := Some r |};
     heap := ∅; calls := [] |}.

Definition unconfigured (fs : list ParserFile) : Session :=
  {| self := {| files := fs; plugins := [];
                variable_resolver := ParserResolver_default; logs := None |};
     heap := ∅; calls := [] |}.

(** The typed file [parse] builds from a root mapping. *)
Definition built_file (l : SinkRef) (path text : string)
    (items : list (string * (nat * nat) * RuamelObject)) : ParserFile :=
  {| file_class := ParserDataContractFile;
     file_logs := l;
     file_path := path;
     file_content_str := text;
     root_yaml_object :=
       {| ruamel_object := items;
          yo_location := {| loc_file_path := path; line := 0; column := 0 |} |} |}.

Definition debug_entry (path : string) : LogEntry :=
  {| severity := Debug; message := "Parsing file '" +:+ path +:+ "'";
     location := None; docs_ref := None |}.

(** The diagnostic of a top-level value that is not a mapping. *)
Definition structural_entry (o : RuamelObject) : LogEntry :=
  {| severity := Error;
     message := "All top level YAML elements must be objects, but was '" +:+
                match o with CommentedSeq _ => "list" | _ => type_name_of o end +:+ "'";
     location := None;
     docs_ref := Some "04-data-contract-language.md#file-type" |}.

Definition syntax_entry (path : string) (ln col : nat) (str_e : string) : LogEntry :=
  {| severity := Error; message := "Invalid YAML: " +:+ str_e;
     location := Some {| loc_file_path := path; line := ln; column := col |};
     docs_ref := None |}.

Definition plugin_events (ps : list ParserPlugin) (f : ParserFile) : list Event :=
  map (fun p => EvPluginParse (plugin_id p) f) ps.

Definition register (f : ParserFile) (p : ContractParser) : ContractParser :=
  {| files := files p ++ [f]; plugins := plugins p;
     variable_resolver := variable_resolver p; logs := logs p |}.

Definition is_mapping (o : RuamelObject) : bool :=
  match o with CommentedMap _ => true | _ => false end.

(** The text the loader is given, and the session right after the load. *)
Definition resolved (s : Session) (text : string) : string :=
  resolve_variables (variable_resolver (self s)) text.

Definition after_load (path : string) (lg : SinkRef) (text : string) (s : Session) : Session :=
  {| self := self s;
     heap := sink_append lg [debug_entry path] (heap s);
     calls := calls s ++ [EvResolve text; EvYamlLoad (resolved s text)] |}.

Definition after_append (f : ParserFile) (path : string) (lg : SinkRef) (text : string)
    (s : Session) : Session :=
  {| self := register f (self s);
     heap := sink_append lg [debug_entry path] (heap s);
     calls := calls s ++ [EvResolve text; EvYamlLoad (resolved s text); EvAppendFile f] |}.

(** What a run appended to sink [r]: the entries of [h'] past those of [h]. *)
Definition appended (h h' : gmap nat (list LogEntry)) (r : SinkRef) : list LogEntry :=
  drop (length (sink_of h r)) (sink_of h' r).

(** The answers of the loader on the texts of the examples. *)
Definition ruamel_sample (text : string) : Outcome RuamelObject :=
  if decide (text = "name: db1") then
    Return (CommentedMap [("name", (0, 6), PyStr "str" "db1")])
  else if decide (text = "datasource: db1") then
    Return (CommentedMap [("datasource", (0, 12), PyStr "str" "db1")])
  else if decide (text = "datasource: db2") then
    Return (CommentedMap [("datasource", (0, 12), PyStr "str" "db2")])
  else if decide (text = "- a") then Return (CommentedSeq [PyStr "str" "a"])
  else if decide (text = "42") then Return (PyScalar "int")
  else if decide (text = "a: [") then
    Raise (MarkedYAMLError (Some (0, 4)) "while parsing a flow node")
  else Return PyNone.

(** The mapping the sample loader answers for a text, if it is one. *)
Definition sample_items (text : string) : list (string * (nat * nat) * RuamelObject) :=
  match ruamel_sample text with
  | Return (CommentedMap i) => i
  | _ => []
  end.

Definition datasource_file (path nm : string) (l c : nat) : ParserFile :=
  {| file_class := ParserDatasourceFile; file_logs := 0; file_path := path;
     file_content_str := "name: " +:+ nm;
     root_yaml_object :=
       {| ruamel_object := [("name", (l, c), PyStr "str" nm)];
          yo_location := {| loc_file_path := path; line := 0; column := 0 |} |} |}.

Definition contract_file (path ds : string) (l c : nat) : ParserFile :=
  {| file_class := ParserDataContractFile; file_logs := 0; file_path := path;
     file_content_str := "datasource: " +:+ ds;
     root_yaml_object :=
       {| ruamel_object := [("datasource", (l, c), PyStr "str" ds)];
          yo_location := {| loc_file_path := path; line := 0; column := 0 |} |} |}.

(** A plugin that reports one warning per file, and one that raises. *)
Definition noting_plugin (id : nat) (r : SinkRef) : ParserPlugin :=
  {| plugin_id := id;
     plugin_parse := fun f h =>
       (Return tt,
        sink_append r [{| severity := Warning; message := "seen " +:+ file_path f;
                          location := None; docs_ref := None |}] h) |}.

Definition failing_plugin (id : nat) : ParserPlugin :=
  {| plugin_id := id;
     plugin_parse := fun _ h => (Raise (OtherException "RuntimeError"), h) |}.

(** A session in which two datasource documents declaring [db1] are each
    given to [parse] (the caller going on after a failed call) and the
    semantics are validated. *)
Definition two_datasources_session : M unit :=
  attempt (parse ruamel_sample "name: db1" "ds1.yml" 0) ;;;
  attempt (parse ruamel_sample "name: db1" "ds2.yml" 0) ;;;
  validate_semantics.

(** The report a top-level sequence or scalar is said to get: nothing
    returned, nothing registered, and one error entry located at the origin
    of the file. *)
Definition structural_error_at_origin (yaml_load : string -> Outcome RuamelObject)
    (text path : string) (lg : SinkRef) (s : Session) : Prop :=
  let run := parse yaml_load text path lg s in
  fst run = Return None /\
  files (self (snd run)) = files (self s) /\
  exists e, errors_of (appended (heap s) (heap (snd run)) lg) = [e] /\
            location e = Some {| loc_file_path := path; line := 0; column := 0 |}.

(** The usage the class documents: one parser, one call of [parse] per
    document (text, path), all with the same sink. *)
Definition parse_all (yaml_load : string -> Outcome RuamelObject)
    (inputs : list (string * string)) (lg : SinkRef) : M unit :=
  for_each inputs (fun input => parse yaml_load input.1 input.2 lg ;;; ret tt).

(** What every sequence of calls on a parser keeps true: a registry that
    holds a file belongs to a parser whose [logs] attribute is assigned,
    since [parse] reads [self.logs] before it appends. *)
Definition registry_needs_logs (s : Session) : Prop :=
  logs (self s) = None -> files (self s) = [].

(** The sinks after each plugin of [ps], in order, has parsed [f]. *)
Definition plugins_applied (ps : list ParserPlugin) (f : ParserFile)
    (h : gmap nat (list LogEntry)) : gmap nat (list LogEntry) :=
  fold_left (fun h p => (plugin_parse p f h).2) ps h.

(** A plugin that signs what it reports. *)
Definition labelled_plugin (id : nat) (label : string) (r : SinkRef) : ParserPlugin :=
  {| plugin_id := id;
     plugin_parse := fun f h =>
       (Return tt,
        sink_append r [{| severity := Warning; message := label +:+ " saw " +:+ file_path f;
                          location := None; docs_ref := None |}] h) |}.

(** A resolver that knows one variable. *)
Definition sample_resolver : ParserResolver :=
  {| resolve_variables := fun text =>
       if decide (text = "datasource: ${DS}") then "datasource: db1" else text |}.

Definition configured_with (vr : ParserResolver) (r : SinkRef) (ps : list ParserPlugin)
    (fs : list ParserFile) : Session :=
  {| self := {| files := fs; plugins := ps; variable_resolver := vr; logs := Some r |};
     heap := ∅; calls := [] |}.

(** * Properties *)

(** ** Sinks *)

Lemma sink_append_append r a b h :
  sink_append r b (sink_append r a h) = sink_append r (a ++ b) h.
Proof.
  unfold sink_append, sink_of.
  rewrite lookup_insert_eq. simpl.
  by rewrite insert_insert_eq, app_assoc.
Qed.

Lemma sink_of_append r r' es h :
  sink_of (sink_append r es h) r' = sink_of h r' ++ (if decide (r = r') then es else []).
Proof.
  unfold sink_append, sink_of.
  destruct (decide (r = r')) as [->|Hne].
  - by rewrite lookup_insert_eq.
  - rewrite lookup_insert_ne by done. by rewrite app_nil_r.
Qed.

(** ** Reporting through [self.logs] *)

Lemma report_run es s :
  report es s =
  match es, logs (self s) with
  | [], _ => (Return tt, s)
  | _ :: _, None => (Raise (AttributeError "ContractParser" "logs"), s)
  | _ :: _, Some r => (Return tt, set_heap (sink_append r es (heap s)) s)
  end.
Proof.
  revert s. induction es as [|e es IH]; intros s; [done|].
  unfold report in *. cbn [for_each]. unfold bind at 1 2, self_logs.
  destruct (logs (self s)) as [r|] eqn:Hl; [|done].
  unfold emit. rewrite IH. cbn [self heap calls].
  rewrite Hl. destruct es as [|e' es']; [done|].
  unfold set_heap. cbn [self heap calls].
  by rewrite sink_append_append.
Qed.

Lemma report_app a b s : (report a ;;; report b) s = report (a ++ b) s.
Proof.
  unfold bind. rewrite (report_run a), (report_run (a ++ b)).
  destruct a as [|x a]; [by rewrite report_run|]. cbn [app].
  destruct (logs (self s)) as [r|] eqn:Hl; [|done].
  rewrite report_run. cbn [set_heap self heap calls]. rewrite Hl.
  destruct b as [|y b].
  - by rewrite app_nil_r.
  - unfold set_heap. cbn [self heap calls]. by rewrite sink_append_append.
Qed.

Lemma for_each_report {A} (xs : list A) (body : A -> M unit) (g : A -> list LogEntry) :
  (forall x, x ∈ xs -> forall s, body x s = report (g x) s) ->
  forall s, for_each xs body s = report (flat_map g xs) s.
Proof.
  induction xs as [|x xs IH]; intros Hb s; [done|].
  cbn [for_each flat_map]. rewrite <- report_app.
  unfold bind. rewrite Hb by left.
  destruct (report (g x) s) as [[[]|e] s']; [|done].
  apply IH. intros y Hy. apply Hb. by right.
Qed.

(** ** Dictionaries *)

Lemma dict_get_elem {V} (d : list (string * V)) k v :
  NoDup (dict_keys d) -> (k, v) ∈ d -> dict_get d k = Some v.
Proof.
  induction d as [|[k' v'] d IH]; intros Hnd Hin.
  - by apply elem_of_nil in Hin.
  - cbn in *. apply NoDup_cons in Hnd as [Hk' Hnd].
    apply elem_of_cons in Hin as [Heq|Hin].
    + inversion Heq; subst. by rewrite decide_True.
    + rewrite decide_False; [by apply IH|].
      intros ->. apply Hk'. apply list_elem_of_fmap. by exists (k, v).
Qed.

Lemma dict_get_None {V} (d : list (string * V)) k :
  dict_get d k = None <-> k ∉ dict_keys d.
Proof.
  induction d as [|[k' v'] d IH]; cbn.
  - split; [intros _; apply not_elem_of_nil|done].
  - rewrite not_elem_of_cons. destruct (decide (k' = k)) as [->|Hne].
    + split; [done|]. by intros [? _].
    + rewrite IH. split; [intros H; split; [congruence|done]|by intros [_ ?]].
Qed.

Lemma dict_keys_append_at {X} k (x : X) d :
  dict_keys (dict_append_at k x d) = dict_keys d.
Proof.
  unfold dict_keys. induction d as [|[k' v'] d IH]; [done|]. cbn.
  destruct (decide (k' = k)); cbn; [done|]. by rewrite IH.
Qed.

Lemma dict_keys_setdefault {V} k (v0 : V) d :
  dict_keys (dict_setdefault k v0 d) =
  if decide (k ∈ dict_keys d) then dict_keys d else dict_keys d ++ [k].
Proof.
  unfold dict_keys. induction d as [|[k' v'] d IH]; cbn.
  - rewrite decide_False; [done|apply not_elem_of_nil].
  - destruct (decide (k' = k)) as [->|Hne]; cbn.
    + rewrite decide_True; [done|left].
    + rewrite IH. destruct (decide (k ∈ map fst d)) as [Hin|Hnin].
      * rewrite decide_True; [done|by right].
      * rewrite decide_False; [done|]. rewrite not_elem_of_cons. naive_solver.
Qed.

Lemma dict_get_setdefault {V} k k' (v0 : V) d :
  dict_get (dict_setdefault k v0 d) k' =
  match dict_get d k' with
  | Some v => Some v
  | None => if decide (k = k') then Some v0 else None
  end.
Proof.
  induction d as [|[k1 v1] d IH]; cbn.
  - done.
  - destruct (decide (k1 = k)) as [->|Hne]; cbn.
    + destruct (decide (k = k')) as [->|Hne']; [done|].
      destruct (dict_get d k'); [done|]. done.
    + destruct (decide (k1 = k')); [done|]. apply IH.
Qed.

Lemma dict_get_append_at {X} k k' (x : X) d :
  dict_get (dict_append_at k x d) k' =
  if decide (k = k') then (fun v => v ++ [x]) <$> dict_get d k' else dict_get d k'.
Proof.
  induction d as [|[k1 v1] d IH]; cbn.
  - by destruct (decide (k = k')).
  - destruct (decide (k1 = k)) as [->|Hne]; cbn.
    + destruct (decide (k = k')) as [->|Hne']; [done|done].
    + destruct (decide (k1 = k')) as [->|Hne1].
      * by rewrite decide_False by done.
      * apply IH.
Qed.

Lemma NoDup_keys_collect d file :
  NoDup (dict_keys d) -> NoDup (dict_keys (collect_declaration d file)).
Proof.
  intros Hnd. unfold collect_declaration.
  destruct (decide _); [|done]. destruct (name file) as [n|]; [|done].
  rewrite dict_keys_append_at, dict_keys_setdefault.
  destruct (decide _) as [Hin|Hnin]; [done|].
  apply NoDup_app. split_and!; [done| |apply NoDup_singleton].
  intros k Hk Hk'. apply list_elem_of_singleton in Hk'. by subst.
Qed.

Lemma NoDup_keys_fold fs d :
  NoDup (dict_keys d) -> NoDup (dict_keys (fold_left collect_declaration fs d)).
Proof.
  revert d. induction fs as [|f fs IH]; intros d Hnd; [done|].
  cbn. apply IH. by apply NoDup_keys_collect.
Qed.

Lemma NoDup_keys_declarations fs : NoDup (dict_keys (declarations fs)).
Proof. apply NoDup_keys_fold. apply NoDup_nil_2. Qed.

Lemma bind_run {A B} (m : M A) (k : A -> M B) s :
  bind m k s =
  match m s with
  | (Return a, s') => k a s'
  | (Raise e, s') => (Raise e, s')
  end.
Proof. done. Qed.

Lemma dict_comprehension_run {V} (P : V -> bool) (d d' : list (string * V)) s :
  (forall k v, (k, v) ∈ d' -> dict_get d k = Some v) ->
  dict_comprehension (fun k _ => v <- dict_getitem d k ;; ret (P v)) d' s =
  (Return (filter (fun kv => P kv.2) d'), s).
Proof.
  set (cond := fun (k : string) (_ : V) => _).
  induction d' as [|[k v] d' IH]; intros Hget; [done|].
  cbn [dict_comprehension].
  assert (cond k v s = (Return (P v), s)) as Hc.
  { unfold cond. rewrite bind_run. unfold dict_getitem.
    by rewrite (Hget k v) by left. }
  rewrite bind_run, Hc, bind_run, IH by (intros; apply Hget; by right).
  unfold ret. rewrite filter_cons. cbn.
  by destruct (P v).
Qed.

(** What the first loop collects for a name: its declaration sites, in
    registry order. *)
Lemma declaration_sites_cons k f fs :
  declaration_sites k (f :: fs) =
  (if decide (file_class f = ParserDatasourceFile) then
     match name f with
     | Some n => if decide (value n = k) then [ys_location n] else []
     | None => []
     end
   else []) ++ declaration_sites k fs.
Proof. done. Qed.

Lemma dict_get_fold_collect fs d k :
  dict_get (fold_left collect_declaration fs d) k =
  match dict_get d k, declaration_sites k fs with
  | None, [] => None
  | o, sites => Some (default [] o ++ sites)
  end.
Proof.
  revert d. induction fs as [|f fs IH]; intros d.
  - cbn. destruct (dict_get d k); cbn; [by rewrite app_nil_r|done].
  - cbn [fold_left]. rewrite IH, declaration_sites_cons.
    unfold collect_declaration.
    destruct (decide (file_class f = ParserDatasourceFile)); [|done].
    destruct (name f) as [n|]; [|done].
    rewrite dict_get_append_at, dict_get_setdefault.
    destruct (decide (value n = k)) as [Heq|Hne].
    + destruct (dict_get d k) as [v|]; cbn.
      * by rewrite <- app_assoc.
      * done.
    + destruct (dict_get d k) as [v|]; cbn; done.
Qed.

Lemma dict_get_declarations fs k :
  dict_get (declarations fs) k =
  match declaration_sites k fs with
  | [] => None
  | sites => Some sites
  end.
Proof. unfold declarations. rewrite dict_get_fold_collect. cbn. by destruct (declaration_sites k fs). Qed.

(** The declared names are exactly the names of the datasource files whose
    [name] is a string. *)
Lemma declared_name_iff fs k :
  k ∈ dict_keys (declarations fs) <->
  exists f n, f ∈ fs /\ file_class f = ParserDatasourceFile /\ name f = Some n /\ value n = k.
Proof.
  assert (k ∈ dict_keys (declarations fs) <-> declaration_sites k fs <> []) as ->.
  { pose proof (dict_get_None (declarations fs) k) as Hn.
    rewrite dict_get_declarations in Hn.
    destruct (declaration_sites k fs) as [|x l].
    - split; [|done]. intros Hin. exfalso. by apply Hn.
    - split; [done|]. intros _.
      destruct (decide (k ∈ dict_keys (declarations fs))) as [|Hnin]; [done|].
      by apply Hn in Hnin. }
  induction fs as [|f fs IH].
  - split; [done|]. intros (f & n & Hf & _). by apply elem_of_nil in Hf.
  - rewrite declaration_sites_cons. split.
    + intros Hne.
      destruct (decide (declaration_sites k fs = [])) as [Hnil|Hnn].
      * rewrite Hnil, app_nil_r in Hne.
        destruct (decide (file_class f = ParserDatasourceFile)) as [Hc|Hc]; [|done].
        destruct (name f) as [n|] eqn:Hn; [|done].
        destruct (decide (value n = k)) as [Hv|Hv]; [|done].
        exists f, n. split_and!; [left|done..].
      * apply IH in Hnn as (f' & n' & ? & ?). exists f', n'. split; [by right|done].
    + intros (f' & n' & Hf & Hc & Hn & Hv) Happ.
      apply app_eq_nil in Happ as [Hhd Htl].
      apply elem_of_cons in Hf as [->|Hf].
      * rewrite decide_True, Hn, decide_True in Hhd by done. done.
      * revert Htl. apply IH. by exists f', n'.
Qed.

Lemma for_each_map {A B} (g : A -> B) (xs : list A) (body : B -> M unit) s :
  for_each (map g xs) body s = for_each xs (fun x => body (g x)) s.
Proof.
  revert s. induction xs as [|x xs IH]; intros s; [done|].
  cbn [map for_each]. rewrite !bind_run.
  destruct (body (g x) s) as [[[]|e] s']; [apply IH|done].
Qed.

(** ** One validation run *)

Lemma duplicates_loop_report (dups : list (string * list ParserLocation)) s :
  NoDup (dict_keys dups) ->
  for_each (dict_keys dups)
    (fun nm =>
       locations <- dict_getitem dups nm ;;
       for_each locations
         (fun location =>
            l <- self_logs ;;
            logs_error l (duplicate_message nm (length locations)) (Some location) None)) s =
  report (flat_map duplicate_entries dups) s.
Proof.
  intros Hnd. unfold dict_keys. rewrite for_each_map.
  apply for_each_report.
  intros [k v] Hin s0. rewrite bind_run. unfold dict_getitem. cbn [fst].
  rewrite (dict_get_elem dups k v Hnd Hin). unfold ret, duplicate_entries.
  cbn [fst snd]. clear Hin. generalize (length v) as n. intros n.
  rewrite <- (for_each_map (fun loc => error_entry (duplicate_message k n) loc) v
                (fun e => l <- self_logs ;; emit l e)).
  done.
Qed.

Lemma references_loop_report (declared : list string) (fs : list ParserFile) s :
  for_each fs
    (fun file =>
       if decide (file_class file = ParserDataContractFile) then
         match datasource file with
         | Some file_datasource =>
             let datasource_reference := value file_datasource in
             if bool_decide (datasource_reference ∈ declared)
             then ret tt
             else
               l <- self_logs ;;
               logs_error l (undefined_message datasource_reference)
                 (Some (ys_location file_datasource)) None
         | None => ret tt
         end
       else ret tt) s =
  report (flat_map (undefined_entries declared) fs) s.
Proof.
  apply for_each_report. intros f _ s0. unfold undefined_entries.
  destruct (decide _); [|done]. destruct (datasource f) as [ds|]; [|done].
  cbn zeta. destruct (bool_decide _); [done|].
  unfold report. cbn [for_each]. rewrite !bind_run.
  destruct (self_logs s0) as [[l|exn] s1]; [|done].
  unfold logs_error, error_entry. by destruct (emit l _ s1) as [[[]|?] ?].
Qed.

(** [validate_semantics] reports the diagnostics of the registry through
    [self.logs], and does nothing else. *)
Lemma validate_semantics_report s :
  validate_semantics s = report (validation_diagnostics (files (self s))) s.
Proof.
  unfold validate_semantics, _validate_datasource_names, validation_diagnostics.
  rewrite <- report_app.
  rewrite bind_run. unfold self_files at 1. cbn beta iota.
  fold (declarations (files (self s))).
  pose proof (NoDup_keys_declarations (files (self s))) as Hnd.
  rewrite bind_run.
  rewrite (dict_comprehension_run (fun v => bool_decide (1 < length v)))
    by (intros k v; apply dict_get_elem, Hnd).
  rewrite (list_filter_iff _ (fun kv => 1 < length kv.2))
    by (intros kv; apply bool_decide_spec).
  rewrite !bind_run.
  rewrite duplicates_loop_report.
  2:{ eapply sublist_NoDup; [exact Hnd|]. unfold dict_keys.
      apply fmap_sublist, sublist_filter. }
  fold (duplicate_diagnostics (files (self s))).
  destruct (report (duplicate_diagnostics (files (self s))) s) as [[[]|e] s'] eqn:Hr; [|done].
  assert (files (self s') = files (self s)) as Hfs.
  { rewrite report_run in Hr. destruct (duplicate_diagnostics _), (logs (self s));
      inversion Hr; subst; done. }
  rewrite bind_run. unfold self_files. cbn beta iota. rewrite Hfs.
  apply references_loop_report.
Qed.

(** ** The plugin pass *)

Lemma call_plugin_parse_run p f s :
  call_plugin_parse p f s =
  ((plugin_parse p f (heap s)).1,
   {| self := self s; heap := (plugin_parse p f (heap s)).2;
      calls := calls s ++ [EvPluginParse (plugin_id p) f] |}).
Proof. unfold call_plugin_parse. by destruct (plugin_parse p f (heap s)). Qed.

Lemma plugins_loop_run ps f s :
  exists n h,
    snd (for_each ps (fun p => call_plugin_parse p f) s) =
      {| self := self s; heap := h; calls := calls s ++ plugin_events (take n ps) f |} /\
    (fst (for_each ps (fun p => call_plugin_parse p f) s) = Return tt -> n = length ps).
Proof.
  revert s. induction ps as [|p ps IH]; intros s.
  - exists 0, (heap s). cbn. rewrite app_nil_r. by destruct s.
  - cbn [for_each]. rewrite bind_run, call_plugin_parse_run.
    destruct (plugin_parse p f (heap s)) as [[[]|e] h1] eqn:Hp; cbn [fst snd].
    + destruct (IH {| self := self s; heap := h1;
                      calls := calls s ++ [EvPluginParse (plugin_id p) f] |})
        as (n & h & Hs & Hr).
      exists (S n), h. cbn [self heap calls] in Hs. rewrite Hs.
      split; [|intros Hret; f_equal/=; by apply Hr].
      cbn. by rewrite <- app_assoc.
    + exists 1, h1. cbn. rewrite take_0. split; [done|discriminate].
Qed.

Lemma plugins_loop_total ps f s :
  Forall (fun p => forall h, fst (plugin_parse p f h) = Return tt) ps ->
  fst (for_each ps (fun p => call_plugin_parse p f) s) = Return tt.
Proof.
  revert s. induction ps as [|p ps IH]; intros s Hall; [done|].
  apply Forall_cons in Hall as [Hp Hall].
  cbn [for_each]. rewrite bind_run, call_plugin_parse_run, Hp.
  by apply IH.
Qed.

(** ** The runs of [parse], by what the loader answers *)

Section ParseRuns.

Context (yaml_load : string -> Outcome RuamelObject).
Implicit Types (s : Session) (text path : string) (lg r : SinkRef).

Local Ltac run_parse :=
  unfold parse, _parse_yaml_str, try_except_MarkedYAMLError, call_resolve_variables,
    call_yaml_load, logs_debug, logs_error, emit, self_logs, self_plugins, files_append,
    bind, ret, raise, resolved in *;
  cbn [self heap calls files plugins variable_resolver logs].

Local Ltac load_then Hload Hl :=
  rewrite Hload; cbn [self heap calls files plugins variable_resolver logs]; rewrite Hl;
  cbn [self heap calls files plugins variable_resolver logs].

Lemma parse_not_mapping text path lg s o :
  yaml_load (resolved s text) = Return o ->
  is_mapping o = false ->
  parse yaml_load text path lg s =
  (Return None,
   {| self := self s;
      heap := sink_append lg [debug_entry path; structural_entry o] (heap s);
      calls := calls s ++ [EvResolve text; EvYamlLoad (resolved s text)] |}).
Proof.
  intros Hload Hnm. run_parse. rewrite Hload.
  destruct o; try discriminate; cbn;
    by rewrite sink_append_append, <- app_assoc.
Qed.

Lemma parse_mapping_unwired text path lg s items :
  yaml_load (resolved s text) = Return (CommentedMap items) ->
  logs (self s) = None ->
  parse yaml_load text path lg s =
  (Raise (AttributeError "ContractParser" "logs"), after_load path lg text s).
Proof.
  intros Hload Hl. run_parse. load_then Hload Hl.
  unfold after_load, resolved. by rewrite <- app_assoc.
Qed.

Lemma parse_mapping_wired text path lg r s items :
  yaml_load (resolved s text) = Return (CommentedMap items) ->
  logs (self s) = Some r ->
  let f := built_file r path text items in
  let run := for_each (plugins (self s)) (fun p => call_plugin_parse p f)
               (after_append f path lg text s) in
  parse yaml_load text path lg s =
  (match fst run with Return _ => Return None | Raise e => Raise e end, snd run).
Proof.
  intros Hload Hl f run. run_parse. load_then Hload Hl.
  subst run. unfold after_append, register, resolved.
  rewrite <- !app_assoc. cbn [app].
  by destruct (for_each _ _ _) as [[[]|e] s'].
Qed.

Lemma parse_syntax_unwired text path lg s mark str_e :
  yaml_load (resolved s text) = Raise (MarkedYAMLError mark str_e) ->
  logs (self s) = None ->
  parse yaml_load text path lg s =
  (Raise (AttributeError "ContractParser" "logs"), after_load path lg text s).
Proof.
  intros Hload Hl. run_parse. load_then Hload Hl.
  unfold after_load, resolved. by rewrite <- app_assoc.
Qed.

Lemma parse_syntax_wired text path lg r s ln col str_e :
  yaml_load (resolved s text) = Raise (MarkedYAMLError (Some (ln, col)) str_e) ->
  logs (self s) = Some r ->
  parse yaml_load text path lg s =
  (Return None,
   {| self := self s;
      heap := sink_append lg [structural_entry PyNone]
                (sink_append r [syntax_entry path ln col str_e]
                   (sink_append lg [debug_entry path] (heap s)));
      calls := calls s ++ [EvResolve text; EvYamlLoad (resolved s text)] |}).
Proof.
  intros Hload Hl. run_parse. load_then Hload Hl. by rewrite <- app_assoc.
Qed.

Lemma parse_syntax_no_mark text path lg r s str_e :
  yaml_load (resolved s text) = Raise (MarkedYAMLError None str_e) ->
  logs (self s) = Some r ->
  parse yaml_load text path lg s =
  (Raise (AttributeError "NoneType" "line"), after_load path lg text s).
Proof.
  intros Hload Hl. run_parse. load_then Hload Hl.
  unfold after_load, resolved. by rewrite <- app_assoc.
Qed.

Lemma parse_load_raises text path lg s e :
  yaml_load (resolved s text) = Raise e ->
  (forall mark str_e, e <> MarkedYAMLError mark str_e) ->
  parse yaml_load text path lg s = (Raise e, after_load path lg text s).
Proof.
  intros Hload Hne. run_parse. rewrite Hload.
  unfold after_load, resolved. rewrite <- app_assoc.
  destruct e; try done. by destruct (Hne problem_mark str_e).
Qed.

End ParseRuns.

Lemma appended_sink_append h r es r' :
  appended h (sink_append r es h) r' = if decide (r = r') then es else [].
Proof.
  unfold appended. rewrite sink_of_append.
  by rewrite drop_app_length.
Qed.

Section ParseShape.

Context (yaml_load : string -> Outcome RuamelObject).
Implicit Types (s : Session) (text path : string) (lg r : SinkRef).

(** Every run of [parse] starts by resolving, then loading the resolved
    text; after that it either leaves the parser alone, or registers the file
    built from the loaded mapping and the raw text and walks the plugins in
    order, stopping at the first one that raises. *)
Lemma parse_shape text path lg s :
  let run := parse yaml_load text path lg s in
  exists rest,
    calls (snd run) = calls s ++ [EvResolve text; EvYamlLoad (resolved s text)] ++ rest /\
    ((rest = [] /\ self (snd run) = self s) \/
     (exists r items n,
        logs (self s) = Some r /\
        yaml_load (resolved s text) = Return (CommentedMap items) /\
        rest = EvAppendFile (built_file r path text items) ::
               plugin_events (take n (plugins (self s))) (built_file r path text items) /\
        self (snd run) = register (built_file r path text items) (self s) /\
        (forall v, fst run = Return v -> n = length (plugins (self s))))).
Proof.
  intros run. subst run.
  destruct (yaml_load (resolved s text)) as [o|e] eqn:Hload.
  - destruct (is_mapping o) eqn:Hm.
    + destruct o as [items| | | |]; try discriminate.
      destruct (logs (self s)) as [r|] eqn:Hl.
      * rewrite (parse_mapping_wired _ _ _ _ r _ items Hload Hl). cbn zeta.
        set (f := built_file r path text items).
        destruct (plugins_loop_run (plugins (self s)) f (after_append f path lg text s))
          as (n & h & Hs & Hr).
        cbn [fst snd]. rewrite Hs. cbn [self calls after_append].
        exists (EvAppendFile f :: plugin_events (take n (plugins (self s))) f).
        split; [by rewrite <- app_assoc|]. right. exists r, items, n.
        split_and!; try done.
        intros v Hv. apply Hr.
        destruct (fst (for_each _ _ _)) as [[]|]; [done|discriminate].
      * rewrite (parse_mapping_unwired _ _ _ _ _ items Hload Hl).
        exists []. split; [done|by left].
    + rewrite (parse_not_mapping _ _ _ _ _ o Hload Hm).
      exists []. split; [done|by left].
  - destruct e as [t a|m|mark str_e|c].
    1,2,4: rewrite (parse_load_raises _ _ _ _ _ _ Hload) by done;
           exists []; split; [done|by left].
    destruct (logs (self s)) as [r|] eqn:Hl.
    + destruct mark as [[ln col]|].
      * rewrite (parse_syntax_wired _ _ _ _ r _ ln col str_e Hload Hl).
        exists []. split; [done|by left].
      * rewrite (parse_syntax_no_mark _ _ _ _ r _ str_e Hload Hl).
        exists []. split; [done|by left].
    + rewrite (parse_syntax_unwired _ _ _ _ _ mark str_e Hload Hl).
      exists []. split; [done|by left].
Qed.

End ParseShape.

Lemma plugins_loop_heap ps f s :
  fst (for_each ps (fun p => call_plugin_parse p f) s) = Return tt ->
  heap (snd (for_each ps (fun p => call_plugin_parse p f) s)) = plugins_applied ps f (heap s).
Proof.
  revert s. induction ps as [|p ps IH]; intros s; [done|].
  cbn [for_each plugins_applied fold_left]. rewrite bind_run, call_plugin_parse_run.
  destruct (plugin_parse p f (heap s)) as [[[]|e] h1]; cbn [fst snd]; [|discriminate].
  intros Hret. by rewrite (IH _ Hret).
Qed.

(** * Properties of the specification *)

(** ** C10 *)

(** C10. [is_soda_library_available] returns [True] when the import of the
    extension module succeeds and [False] when it raises
    [ModuleNotFoundError]; when the module is absent it returns a boolean and
    no exception leaves the function. *)
Theorem is_soda_library_available_returns_boolean :
  (forall u, is_soda_library_available (Return u) = Return true) /\
  (forall m, is_soda_library_available (Raise (ModuleNotFoundError m)) = Return false) /\
  (forall imp, raised (is_soda_library_available imp) = true ->
               exists e, imp = Raise e /\ forall m, e <> ModuleNotFoundError m).
Proof.
  split_and!; [done..|].
  intros [u|e] Hr; [done|]. exists e. split; [done|].
  intros m ->. discriminate.
Qed.

(** ** C1 *)

Section Claims.

Context (yaml_load : string -> Outcome RuamelObject).
Implicit Types (s : Session) (text path : string) (lg r : SinkRef).

(** [parse] has no [return] with a value: whatever the text, the caller
    never gets a file back. *)
Lemma parse_never_returns_file text path lg s f :
  fst (parse yaml_load text path lg s) <> Return (Some f).
Proof.
  destruct (yaml_load (resolved s text)) as [o|e] eqn:Hload.
  - destruct (is_mapping o) eqn:Hm.
    + destruct o as [items| | | |]; try discriminate.
      destruct (logs (self s)) as [r|] eqn:Hl.
      * rewrite (parse_mapping_wired _ _ _ _ r _ items Hload Hl). cbn.
        by destruct (fst (for_each _ _ _)).
      * by rewrite (parse_mapping_unwired _ _ _ _ _ items Hload Hl).
    + by rewrite (parse_not_mapping _ _ _ _ _ o Hload Hm).
  - destruct e as [t a|m|mark str_e|c].
    1,2,4: by rewrite (parse_load_raises _ _ _ _ _ _ Hload).
    destruct (logs (self s)) as [r|] eqn:Hl.
    + destruct mark as [[ln col]|].
      * by rewrite (parse_syntax_wired _ _ _ _ r _ ln col str_e Hload Hl).
      * by rewrite (parse_syntax_no_mark _ _ _ _ r _ str_e Hload Hl).
    + by rewrite (parse_syntax_unwired _ _ _ _ _ mark str_e Hload Hl).
Qed.

(** C1 (the code departs from it). For a text that loads as a single
    top-level object, [parse] on a parser as [__init__] leaves it (no [logs]
    attribute) raises [AttributeError] at [self.logs] before the file is
    built: nothing is appended to the registry.  And on no parser does it
    return the file. *)
Theorem parse_valid_object_yields_no_file text path lg s items :
  yaml_load (resolved s text) = Return (CommentedMap items) ->
  (forall f, fst (parse yaml_load text path lg s) <> Return (Some f)) /\
  (logs (self s) = None ->
   fst (parse yaml_load text path lg s) = Raise (AttributeError "ContractParser" "logs") /\
   files (self (snd (parse yaml_load text path lg s))) = files (self s)).
Proof.
  intros Hload. split; [intros f; apply parse_never_returns_file|].
  intros Hl. by rewrite (parse_mapping_unwired _ _ _ _ _ items Hload Hl).
Qed.

(** With the attribute assigned and well-behaved plugins the file is
    registered, and still [None] is what comes back. *)
Lemma parse_ingests text path lg r s items :
  yaml_load (resolved s text) = Return (CommentedMap items) ->
  logs (self s) = Some r ->
  Forall (fun p => forall h, fst (plugin_parse p (built_file r path text items) h) = Return tt)
    (plugins (self s)) ->
  exists s',
    parse yaml_load text path lg s = (Return None, s') /\
    self s' = register (built_file r path text items) (self s) /\
    calls s' = calls s ++
      [EvResolve text; EvYamlLoad (resolved s text);
       EvAppendFile (built_file r path text items)] ++
      plugin_events (plugins (self s)) (built_file r path text items).
Proof.
  intros Hload Hl Hall.
  rewrite (parse_mapping_wired _ _ _ _ r _ items Hload Hl). cbn zeta.
  set (f := built_file r path text items) in *.
  pose proof (plugins_loop_total _ f (after_append f path lg text s) Hall) as Hret.
  destruct (plugins_loop_run (plugins (self s)) f (after_append f path lg text s))
    as (n & h & Hs & Hn).
  rewrite Hret. eexists. split; [done|]. rewrite Hs.
  rewrite (Hn Hret), firstn_all. cbn [self calls after_append].
  split; [done|]. by rewrite <- app_assoc.
Qed.

(** ** C2 *)

(** C2 (the code departs from it). For a text the loader rejects with a
    [MarkedYAMLError], [parse] on a parser as [__init__] leaves it raises
    [AttributeError] from the handler: the caller's sink receives the debug
    entry only, no sink receives a syntax-error entry. *)
Theorem parse_invalid_yaml_raises text path lg s mark str_e :
  yaml_load (resolved s text) = Raise (MarkedYAMLError mark str_e) ->
  logs (self s) = None ->
  exists s',
    parse yaml_load text path lg s = (Raise (AttributeError "ContractParser" "logs"), s') /\
    forall r, appended (heap s) (heap s') r = if decide (lg = r) then [debug_entry path] else [].
Proof.
  intros Hload Hl. rewrite (parse_syntax_unwired _ _ _ _ _ mark str_e Hload Hl).
  eexists. split; [done|]. intros r. apply appended_sink_append.
Qed.

(** With the attribute assigned to the caller's sink, the syntax error is
    reported at the loader's mark, and a second error about a top-level
    [NoneType] follows it. *)
Lemma parse_invalid_yaml_reports_twice text path lg s ln col str_e :
  yaml_load (resolved s text) = Raise (MarkedYAMLError (Some (ln, col)) str_e) ->
  logs (self s) = Some lg ->
  exists s',
    parse yaml_load text path lg s = (Return None, s') /\
    appended (heap s) (heap s') lg =
      [debug_entry path; syntax_entry path ln col str_e; structural_entry PyNone].
Proof.
  intros Hload Hl. rewrite (parse_syntax_wired _ _ _ _ lg _ ln col str_e Hload Hl).
  eexists. split; [done|]. cbn [heap].
  rewrite !sink_append_append. rewrite appended_sink_append.
  by rewrite decide_True.
Qed.

(** ** C3 *)

(** C3 (the code departs from it). A syntax failure on a parser as
    [__init__] leaves it is an exception at the call site: whatever the
    caller had planned next does not run. *)
Theorem syntax_failure_aborts_the_caller {B} text path lg (rest : M B) s mark str_e :
  yaml_load (resolved s text) = Raise (MarkedYAMLError mark str_e) ->
  logs (self s) = None ->
  (parse yaml_load text path lg ;;; rest) s =
  (Raise (AttributeError "ContractParser" "logs"), after_load path lg text s).
Proof.
  intros Hload Hl. rewrite bind_run.
  by rewrite (parse_syntax_unwired _ _ _ _ _ mark str_e Hload Hl).
Qed.

(** ** C4 *)

(** C4 (as the code has it). For a text that loads as anything but a
    mapping, [parse] returns [None], leaves the parser (hence the registry)
    untouched, and appends to the caller's sink the debug entry followed by
    exactly one error entry, which has a documentation reference and no
    location. *)
Theorem parse_non_object_reports_unlocated_error text path lg s o :
  yaml_load (resolved s text) = Return o ->
  is_mapping o = false ->
  exists s',
    parse yaml_load text path lg s = (Return None, s') /\
    self s' = self s /\
    (forall r, appended (heap s) (heap s') r =
               if decide (lg = r) then [debug_entry path; structural_entry o] else []) /\
    errors_of (appended (heap s) (heap s') lg) = [structural_entry o] /\
    location (structural_entry o) = None /\
    docs_ref (structural_entry o) = Some "04-data-contract-language.md#file-type".
Proof.
  intros Hload Hm. rewrite (parse_not_mapping _ _ _ _ _ o Hload Hm).
  eexists. split; [done|]. split; [done|]. cbn [heap].
  split; [intros r; apply appended_sink_append|].
  rewrite appended_sink_append, decide_True by done. done.
Qed.

(** ** C8 *)

(** C8. Every run of [parse] first calls the resolver on the input text and
    then the loader on the resolved text, and calls neither again.  When the
    resolved text loads as a mapping (parser with [logs] assigned, plugins
    that do not raise) the run registers a file whose content is the raw
    input text and whose root is the mapping loaded from the resolved text;
    and no run registers anything else. *)
Theorem parse_loads_resolved_text_and_keeps_raw_text text path lg s :
  (exists rest,
     calls (snd (parse yaml_load text path lg s)) =
       calls s ++ EvResolve text :: EvYamlLoad (resolved s text) :: rest /\
     forall t, (EvResolve t ∉ rest) /\ (EvYamlLoad t ∉ rest)) /\
  (forall r items,
     yaml_load (resolved s text) = Return (CommentedMap items) ->
     logs (self s) = Some r ->
     Forall (fun p => forall h, fst (plugin_parse p (built_file r path text items) h) = Return tt)
       (plugins (self s)) ->
     exists s' f,
       parse yaml_load text path lg s = (Return None, s') /\
       files (self s') = files (self s) ++ [f] /\
       file_content_str f = text /\
       ruamel_object (root_yaml_object f) = items) /\
  (forall f, f ∈ files (self (snd (parse yaml_load text path lg s))) ->
     f ∈ files (self s) \/
     (file_content_str f = text /\
      yaml_load (resolved s text) =
        Return (CommentedMap (ruamel_object (root_yaml_object f))))).
Proof.
  split_and!.
  - destruct (parse_shape yaml_load text path lg s) as (rest & Hcalls & Hcase).
    cbn zeta in *. exists rest. split; [done|]. intros t.
    destruct Hcase as [[-> _]|(r & items & n & _ & _ & -> & _)].
    + split; apply not_elem_of_nil.
    + unfold plugin_events. split; intros Hin;
        (apply elem_of_cons in Hin as [Heq|Hin]; [discriminate|]);
        apply list_elem_of_fmap in Hin as (p & Hp & _); discriminate.
  - intros r items Hload Hl Hall.
    destruct (parse_ingests text path lg r s items Hload Hl Hall) as (s' & Hrun & Hself & _).
    exists s', (built_file r path text items). rewrite Hself. by split_and!.
  - intros f Hf.
    destruct (parse_shape yaml_load text path lg s) as (rest & _ & Hcase).
    cbn zeta in *.
    destruct Hcase as [[_ Hself]|(r & items & n & _ & Hload & _ & Hself & _)];
      rewrite Hself in Hf; [by left|].
    cbn in Hf. apply elem_of_app in Hf as [Hf|Hf]; [by left|].
    apply list_elem_of_singleton in Hf. subst f. by right.
Qed.

(** ** C9 *)

(** C9. When a call of [parse] completes and has registered a file, it has
    made these calls in this order: the resolver, the loader, the append of
    the file to the registry, and then one [plugin.parse(file)] per
    registered plugin in registration order; and the sinks are what the
    plugins, each applied once to that file and in that order, have made of
    the sinks that held the debug entry of the call.  A call on a parser with
    [logs] assigned, for a text that loads as a mapping and with plugins that
    do not raise, does complete and register the file. *)
Theorem plugins_applied_once_in_order_after_append text path lg s :
  (forall v s' f,
     parse yaml_load text path lg s = (Return v, s') ->
     files (self s') = files (self s) ++ [f] ->
     calls s' = calls s ++
       [EvResolve text; EvYamlLoad (resolved s text); EvAppendFile f] ++
       plugin_events (plugins (self s)) f /\
     heap s' = plugins_applied (plugins (self s)) f
                 (sink_append lg [debug_entry path] (heap s))) /\
  (forall r items,
     yaml_load (resolved s text) = Return (CommentedMap items) ->
     logs (self s) = Some r ->
     Forall (fun p => forall h, fst (plugin_parse p (built_file r path text items) h) = Return tt)
       (plugins (self s)) ->
     exists s',
       parse yaml_load text path lg s = (Return None, s') /\
       files (self s') = files (self s) ++ [built_file r path text items] /\
       calls s' = calls s ++
         [EvResolve text; EvYamlLoad (resolved s text);
          EvAppendFile (built_file r path text items)] ++
         plugin_events (plugins (self s)) (built_file r path text items) /\
       heap s' = plugins_applied (plugins (self s)) (built_file r path text items)
                   (sink_append lg [debug_entry path] (heap s))).
Proof.
  assert (forall r items v s',
            yaml_load (resolved s text) = Return (CommentedMap items) ->
            logs (self s) = Some r ->
            parse yaml_load text path lg s = (Return v, s') ->
            self s' = register (built_file r path text items) (self s) /\
            calls s' = calls s ++
              [EvResolve text; EvYamlLoad (resolved s text);
               EvAppendFile (built_file r path text items)] ++
              plugin_events (plugins (self s)) (built_file r path text items) /\
            heap s' = plugins_applied (plugins (self s)) (built_file r path text items)
                        (sink_append lg [debug_entry path] (heap s))) as Hwired.
  { intros r items v s' Hload Hl Hrun.
    rewrite (parse_mapping_wired _ _ _ _ r _ items Hload Hl) in Hrun. cbn zeta in Hrun.
    set (f := built_file r path text items) in *.
    set (s1 := after_append f path lg text s) in *.
    destruct (plugins_loop_run (plugins (self s)) f s1) as (n & h & Hs & Hn).
    pose proof (plugins_loop_heap (plugins (self s)) f s1) as Hheap.
    destruct (for_each (plugins (self s)) _ s1) as [[[]|e] s2]; cbn [fst snd] in *;
      [|discriminate].
    inversion Hrun; subst v s'. rewrite Hs in *. cbn [self heap calls] in *.
    rewrite (Hn eq_refl), firstn_all. split_and!.
    - done.
    - subst s1. cbn [after_append calls]. by rewrite <- app_assoc.
    - by rewrite (Hheap eq_refl). }
  split.
  - intros v s' f Hrun Hf.
    destruct (parse_shape yaml_load text path lg s) as (rest & _ & Hcase).
    cbn zeta in Hcase. rewrite Hrun in Hcase. cbn [fst snd] in Hcase.
    destruct Hcase as [[_ Hself]|(r & items & n & Hl & Hload & _ & Hself & _)].
    + rewrite Hself in Hf. apply (f_equal length) in Hf.
      rewrite length_app in Hf. cbn in Hf. lia.
    + rewrite Hself in Hf. cbn in Hf. apply app_inv_head in Hf. inversion Hf; subst f.
      destruct (Hwired r items v s' Hload Hl Hrun) as (_ & Hc & Hh). by split.
  - intros r items Hload Hl Hall.
    destruct (parse_ingests text path lg r s items Hload Hl Hall) as (s' & Hrun & Hself & _).
    exists s'. destruct (Hwired r items None s' Hload Hl Hrun) as (_ & Hc & Hh).
    rewrite Hself. by split_and!.
Qed.

End Claims.

(** ** C7 *)

Lemma validate_semantics_run s :
  validate_semantics s =
  match validation_diagnostics (files (self s)), logs (self s) with
  | [], _ => (Return tt, s)
  | _ :: _, None => (Raise (AttributeError "ContractParser" "logs"), s)
  | _ :: _, Some r =>
      (Return tt,
       set_heap (sink_append r (validation_diagnostics (files (self s))) (heap s)) s)
  end.
Proof. by rewrite validate_semantics_report, report_run. Qed.

Lemma appended_same h r : appended h h r = [].
Proof. unfold appended. by rewrite drop_all. Qed.

(** C7. Two calls of [validate_semantics] in a row end the same way (both
    return, or both raise the same exception), leave the parser as it was,
    and append the same entries to every sink: the second call recomputes
    the diagnostics of the first from the registry. *)
Theorem validate_semantics_idempotent s :
  let run1 := validate_semantics s in
  let run2 := validate_semantics (snd run1) in
  fst run2 = fst run1 /\
  self (snd run1) = self s /\
  self (snd run2) = self s /\
  forall r,
    sink_of (heap (snd run1)) r =
      sink_of (heap s) r ++ appended (heap s) (heap (snd run1)) r /\
    sink_of (heap (snd run2)) r =
      sink_of (heap (snd run1)) r ++ appended (heap (snd run1)) (heap (snd run2)) r /\
    appended (heap (snd run1)) (heap (snd run2)) r = appended (heap s) (heap (snd run1)) r.
Proof.
  cbn zeta. rewrite (validate_semantics_run s).
  destruct (validation_diagnostics (files (self s))) as [|d ds] eqn:HD.
  - cbn [fst snd]. rewrite validate_semantics_run, HD. cbn [fst snd].
    split_and!; try done. intros r. rewrite appended_same, app_nil_r. done.
  - destruct (logs (self s)) as [r0|] eqn:Hl; cbn [fst snd].
    + rewrite validate_semantics_run. cbn [set_heap self heap]. rewrite HD, Hl.
      cbn [fst snd set_heap self heap].
      split_and!; try done. intros r.
      rewrite !appended_sink_append, !sink_of_append. done.
    + rewrite validate_semantics_run, HD, Hl. cbn [fst snd].
      split_and!; try done. intros r. rewrite appended_same, app_nil_r. done.
Qed.

(** ** C5 *)

(** C5 (the code departs from it). After two datasource documents declaring
    [db1] were each given to [parse], [validate_semantics] reports no
    duplicate.  On a parser as [__init__] leaves it both calls of [parse]
    raise before registering anything; with the [logs] attribute assigned
    both documents are registered as data contract files, which the duplicate
    check skips. *)
Theorem duplicate_names_given_to_parse_are_not_reported :
  (let s' := snd (two_datasources_session fresh_session) in
   files (self s') = [] /\ errors_of (sink_of (heap s') 0) = []) /\
  (let s' := snd (two_datasources_session (configured 0 [] [])) in
   map file_class (files (self s')) = [ParserDataContractFile; ParserDataContractFile] /\
   errors_of (sink_of (heap s') 0) = []).
Proof. split; split; vm_compute; reflexivity. Qed.

(** ** C4, as stated *)

(** C4 as stated fails on the text [- a]: the one error entry that [parse]
    appends for the top-level sequence has no location, so it is not located
    at (contract.yml, 0, 0). *)
Lemma top_level_sequence_error_is_not_at_origin :
  ~ structural_error_at_origin ruamel_sample "- a" "contract.yml" 0 fresh_session.
Proof.
  intros (_ & _ & e & He & Hloc).
  vm_compute in He. inversion He; subst e. discriminate Hloc.
Qed.

(** ** The validators on a parser whose [logs] attribute is assigned *)

Lemma validate_semantics_wired s r :
  logs (self s) = Some r ->
  exists s',
    validate_semantics s = (Return tt, s') /\
    self s' = self s /\
    calls s' = calls s /\
    forall r', appended (heap s) (heap s') r' =
               if decide (r = r') then validation_diagnostics (files (self s)) else [].
Proof.
  intros Hl. rewrite validate_semantics_run, Hl.
  destruct (validation_diagnostics (files (self s))) as [|d ds] eqn:HD.
  - exists s. split_and!; try done. intros r'. rewrite appended_same.
    by destruct (decide (r = r')).
  - eexists. split_and!; try done. intros r'. cbn [set_heap heap].
    apply appended_sink_append.
Qed.

Lemma flat_map_filter {A B} (P : A -> Prop) `{!forall x, Decision (P x)}
    (g : A -> list B) (xs : list A) :
  flat_map g (filter P xs) = flat_map (fun x => if decide (P x) then g x else []) xs.
Proof.
  induction xs as [|x xs IH]; [done|].
  rewrite filter_cons. cbn. destruct (decide (P x)); cbn; by rewrite IH.
Qed.

Lemma flat_map_ext_in {A B} (g h : A -> list B) (xs : list A) :
  (forall x, x ∈ xs -> g x = h x) -> flat_map g xs = flat_map h xs.
Proof.
  induction xs as [|x xs IH]; intros Heq; [done|].
  cbn. rewrite (Heq x) by left. rewrite IH; [done|].
  intros y Hy. apply Heq. by right.
Qed.

Lemma flat_map_map {A B C} (g : A -> B) (h : B -> list C) (xs : list A) :
  flat_map h (map g xs) = flat_map (fun x => h (g x)) xs.
Proof. induction xs as [|x xs IH]; [done|]. cbn. by rewrite IH. Qed.

Lemma declarations_elem fs k v :
  (k, v) ∈ declarations fs -> v = declaration_sites k fs.
Proof.
  intros Hin.
  pose proof (dict_get_elem _ _ _ (NoDup_keys_declarations fs) Hin) as Hget.
  rewrite dict_get_declarations in Hget.
  destruct (declaration_sites k fs); [done|]. by inversion Hget.
Qed.

(** The duplicate check: the declared names in order of first declaration;
    for each one declared more than once, one error per declaration site, in
    registry order, with the number of sites in the message. *)
Lemma duplicate_diagnostics_spec fs :
  duplicate_diagnostics fs =
  flat_map
    (fun k =>
       if decide (1 < length (declaration_sites k fs)) then
         map (error_entry (duplicate_message k (length (declaration_sites k fs))))
           (declaration_sites k fs)
       else [])
    (dict_keys (declarations fs)).
Proof.
  unfold duplicate_diagnostics, dict_keys.
  rewrite flat_map_filter, flat_map_map.
  apply flat_map_ext_in. intros [k v] Hin.
  apply declarations_elem in Hin as ->. done.
Qed.

(** The reference check, file by file in registry order: one error at the
    reference when no datasource file declares the name, none otherwise. *)
Lemma undefined_entries_declared fs f ds g n :
  file_class f = ParserDataContractFile -> datasource f = Some ds ->
  g ∈ fs -> file_class g = ParserDatasourceFile -> name g = Some n -> value n = value ds ->
  undefined_entries (dict_keys (declarations fs)) f = [].
Proof.
  intros Hc Hds Hg Hgc Hn Hv. unfold undefined_entries.
  rewrite decide_True, Hds by done.
  rewrite bool_decide_eq_true_2; [done|].
  apply declared_name_iff. by exists g, n.
Qed.

Lemma undefined_entries_undeclared fs f ds :
  file_class f = ParserDataContractFile -> datasource f = Some ds ->
  (forall g n, g ∈ fs -> file_class g = ParserDatasourceFile ->
               name g = Some n -> value n <> value ds) ->
  undefined_entries (dict_keys (declarations fs)) f =
  [error_entry (undefined_message (value ds)) (ys_location ds)].
Proof.
  intros Hc Hds Hundef. unfold undefined_entries.
  rewrite decide_True, Hds by done.
  rewrite bool_decide_eq_false_2; [done|].
  intros (g & n & Hg & Hgc & Hn & Hv)%declared_name_iff.
  by apply (Hundef g n).
Qed.

Lemma undefined_entries_skipped fs f :
  file_class f <> ParserDataContractFile \/ datasource f = None ->
  undefined_entries (dict_keys (declarations fs)) f = [].
Proof.
  intros [Hc|Hds]; unfold undefined_entries.
  - by rewrite decide_False.
  - rewrite Hds. by destruct (decide _).
Qed.

Lemma undefined_diagnostics_spec fs e :
  e ∈ undefined_diagnostics fs <->
  exists f ds,
    f ∈ fs /\ file_class f = ParserDataContractFile /\ datasource f = Some ds /\
    (forall g n, g ∈ fs -> file_class g = ParserDatasourceFile ->
                 name g = Some n -> value n <> value ds) /\
    e = error_entry (undefined_message (value ds)) (ys_location ds).
Proof.
  unfold undefined_diagnostics. rewrite list_elem_of_In, in_flat_map. split.
  - intros (f & Hf%list_elem_of_In & He%list_elem_of_In).
    unfold undefined_entries in He.
    destruct (decide (file_class f = ParserDataContractFile)) as [Hc|];
      [|by apply elem_of_nil in He].
    destruct (datasource f) as [ds|] eqn:Hds; [|by apply elem_of_nil in He].
    destruct (bool_decide _) eqn:Hb; [by apply elem_of_nil in He|].
    apply list_elem_of_singleton in He. apply bool_decide_eq_false in Hb.
    exists f, ds. split_and!; try done.
    intros g n Hg Hgc Hn Hv. apply Hb, declared_name_iff. by exists g, n.
  - intros (f & ds & Hf & Hc & Hds & Hundef & ->).
    exists f. split; [by apply list_elem_of_In|].
    rewrite (undefined_entries_undeclared fs f ds Hc Hds Hundef). by left.
Qed.

(** Two datasource files declaring [db1], in the registry of a parser whose
    [logs] is sink 0: two errors, one per site, each citing 2. *)
Example two_declarations_of_db1 :
  let s := configured 0 [] [datasource_file "ds1.yml" "db1" 0 6;
                            datasource_file "ds2.yml" "db1" 0 6] in
  fst (validate_semantics s) = Return tt /\
  sink_of (heap (snd (validate_semantics s))) 0 =
    [error_entry "Datasource 'db1' was declared 2 times"
       {| loc_file_path := "ds1.yml"; line := 0; column := 6 |};
     error_entry "Datasource 'db1' was declared 2 times"
       {| loc_file_path := "ds2.yml"; line := 0; column := 6 |}].
Proof. split; vm_compute; reflexivity. Qed.

(** One datasource file declaring [db1] and contracts referring to [db1] and
    to [db2]: one error, at the reference to [db2]. *)
Example reference_to_db2 :
  let s := configured 0 [] [datasource_file "ds1.yml" "db1" 0 6;
                            contract_file "c1.yml" "db1" 0 12;
                            contract_file "c2.yml" "db2" 3 12] in
  fst (validate_semantics s) = Return tt /\
  sink_of (heap (snd (validate_semantics s))) 0 =
    [error_entry "Datasource 'db2' is not defined"
       {| loc_file_path := "c2.yml"; line := 3; column := 12 |}].
Proof. split; vm_compute; reflexivity. Qed.

(** A plugin that raises ends the pass: the file stays registered, the
    plugins after it are not called, and the exception leaves [parse]. *)
Example raising_plugin_stops_the_pass :
  let run := parse ruamel_sample "datasource: db1" "contract.yml" 0
               (configured 0 [noting_plugin 1 0; failing_plugin 2; noting_plugin 3 0] []) in
  let f := built_file 0 "contract.yml" "datasource: db1"
             [("datasource", (0, 12), PyStr "str" "db1")] in
  fst run = Raise (OtherException "RuntimeError") /\
  files (self (snd run)) = [f] /\
  calls (snd run) =
    [EvResolve "datasource: db1"; EvYamlLoad "datasource: db1"; EvAppendFile f;
     EvPluginParse 1 f; EvPluginParse 2 f].
Proof. split_and!; vm_compute; reflexivity. Qed.

(** * The properties at concrete inputs *)

Lemma parse_valid_object_yields_no_file_witness :
  (forall f, fst (parse ruamel_sample "datasource: db1" "contract.yml" 0 fresh_session)
             <> Return (Some f)) /\
  (logs (self fresh_session) = None ->
   fst (parse ruamel_sample "datasource: db1" "contract.yml" 0 fresh_session)
     = Raise (AttributeError "ContractParser" "logs") /\
   files (self (snd (parse ruamel_sample "datasource: db1" "contract.yml" 0 fresh_session)))
     = files (self fresh_session)).
Proof.
  apply (parse_valid_object_yields_no_file ruamel_sample "datasource: db1" "contract.yml" 0
           fresh_session [("datasource", (0, 12), PyStr "str" "db1")]).
  reflexivity.
Defined.

Lemma parse_invalid_yaml_raises_witness :
  exists s',
    parse ruamel_sample "a: [" "broken.yml" 0 fresh_session =
      (Raise (AttributeError "ContractParser" "logs"), s') /\
    forall r, appended (heap fresh_session) (heap s') r =
              if decide (0 = r) then [debug_entry "broken.yml"] else [].
Proof.
  apply (parse_invalid_yaml_raises ruamel_sample "a: [" "broken.yml" 0 fresh_session
           (Some (0, 4)) "while parsing a flow node"); reflexivity.
Defined.

Lemma syntax_failure_aborts_the_caller_witness :
  (parse ruamel_sample "a: [" "broken.yml" 0 ;;;
   parse ruamel_sample "datasource: db1" "contract.yml" 0 ;;;
   validate_semantics) fresh_session =
  (Raise (AttributeError "ContractParser" "logs"),
   after_load "broken.yml" 0 "a: [" fresh_session).
Proof.
  apply (syntax_failure_aborts_the_caller ruamel_sample "a: [" "broken.yml" 0
           (parse ruamel_sample "datasource: db1" "contract.yml" 0 ;;; validate_semantics)
           fresh_session (Some (0, 4)) "while parsing a flow node"); reflexivity.
Defined.

Lemma parse_non_object_reports_unlocated_error_witness :
  exists s',
    parse ruamel_sample "- a" "contract.yml" 0 fresh_session = (Return None, s') /\
    self s' = self fresh_session /\
    (forall r, appended (heap fresh_session) (heap s') r =
               if decide (0 = r)
               then [debug_entry "contract.yml"; structural_entry (CommentedSeq [PyStr "str" "a"])]
               else []) /\
    errors_of (appended (heap fresh_session) (heap s') 0) =
      [structural_entry (CommentedSeq [PyStr "str" "a"])] /\
    location (structural_entry (CommentedSeq [PyStr "str" "a"])) = None /\
    docs_ref (structural_entry (CommentedSeq [PyStr "str" "a"])) =
      Some "04-data-contract-language.md#file-type".
Proof.
  apply (parse_non_object_reports_unlocated_error ruamel_sample "- a" "contract.yml" 0
           fresh_session (CommentedSeq [PyStr "str" "a"])); reflexivity.
Defined.

(** * Further properties of the parser *)

Lemma appended_of_sink h h' r es :
  sink_of h' r = sink_of h r ++ es -> appended h h' r = es.
Proof. intros Hs. unfold appended. by rewrite Hs, drop_app_length. Qed.

Lemma for_each_app {A} (xs ys : list A) (body : A -> M unit) s :
  for_each (xs ++ ys) body s = (for_each xs body ;;; for_each ys body) s.
Proof.
  revert s. induction xs as [|x xs IH]; intros s; [done|].
  cbn [app for_each]. rewrite !bind_run.
  destruct (body x s) as [[[]|e] s1]; [|done].
  by rewrite IH, bind_run.
Qed.

Section ParseEdges.

Context (yaml_load : string -> Outcome RuamelObject).
Implicit Types (s : Session) (text path : string) (lg r : SinkRef).

(** X1. Whatever the text and the state of the parser, a call of [parse]
    either returns [None] or raises: the method has no [return] that hands a
    file back, so the only way to the file is the registry. *)
Theorem parse_returns_none_or_raises text path lg s :
  fst (parse yaml_load text path lg s) = Return None \/
  exists e, fst (parse yaml_load text path lg s) = Raise e.
Proof.
  destruct (fst (parse yaml_load text path lg s)) as [[f|]|e] eqn:Hrun.
  - exfalso. by apply (parse_never_returns_file yaml_load text path lg s f).
  - by left.
  - right. by exists e.
Qed.

(** X2. On a parser whose [logs] attribute is sink [r], a text that loads as
    a mapping, with plugins that do not raise: the call returns [None] and
    appends one file to the registry.  The file is a [ParserDataContractFile],
    it is built with the parser's [self.logs] (not with the [logs] argument of
    the call), with the path and the raw text of the call, and its root is the
    loaded mapping located at (path, 0, 0); the other attributes of the parser
    are unchanged. *)
Theorem parse_registers_data_contract_file text path lg r s items :
  yaml_load (resolved s text) = Return (CommentedMap items) ->
  logs (self s) = Some r ->
  Forall (fun p => forall h, fst (plugin_parse p (built_file r path text items) h) = Return tt)
    (plugins (self s)) ->
  exists s' f,
    parse yaml_load text path lg s = (Return None, s') /\
    files (self s') = files (self s) ++ [f] /\
    file_class f = ParserDataContractFile /\
    file_logs f = r /\
    file_path f = path /\
    file_content_str f = text /\
    ruamel_object (root_yaml_object f) = items /\
    yo_location (root_yaml_object f) = {| loc_file_path := path; line := 0; column := 0 |} /\
    plugins (self s') = plugins (self s) /\
    variable_resolver (self s') = variable_resolver (self s) /\
    logs (self s') = logs (self s).
Proof.
  intros Hload Hl Hall.
  destruct (parse_ingests yaml_load text path lg r s items Hload Hl Hall)
    as (s' & Hrun & Hself & _).
  exists s', (built_file r path text items). rewrite Hself. by split_and!.
Qed.

(** X3. On a parser whose [logs] attribute is sink [r], a text the loader
    rejects with a [MarkedYAMLError] at (ln, col): the syntax error goes to
    [self.logs] with that location; [_parse_yaml_str] then falls off its
    handler, and [parse] goes on to report the [None] it got as a top-level
    value of type [NoneType] to the caller's sink.  The call returns [None] and
    leaves the parser as it was. *)
Theorem syntax_error_is_followed_by_structural_error text path lg r s ln col str_e :
  yaml_load (resolved s text) = Raise (MarkedYAMLError (Some (ln, col)) str_e) ->
  logs (self s) = Some r ->
  exists s',
    parse yaml_load text path lg s = (Return None, s') /\
    self s' = self s /\
    forall r',
      appended (heap s) (heap s') r' =
        (if decide (lg = r') then [debug_entry path] else []) ++
        (if decide (r = r') then [syntax_entry path ln col str_e] else []) ++
        (if decide (lg = r') then [structural_entry PyNone] else []).
Proof.
  intros Hload Hl. rewrite (parse_syntax_wired _ _ _ _ r _ ln col str_e Hload Hl).
  eexists. split; [done|]. split; [done|]. intros r'. cbn [heap].
  apply appended_of_sink. rewrite !sink_of_append. by rewrite <- !app_assoc.
Qed.

(** X4. When the [MarkedYAMLError] carries no [problem_mark], building the
    location fails on [e.problem_mark.line]: on a parser with [logs] assigned
    the call raises [AttributeError], and the only entry it has appended is
    the debug entry; no syntax error is reported. *)
Theorem syntax_error_without_mark_raises text path lg r s str_e :
  yaml_load (resolved s text) = Raise (MarkedYAMLError None str_e) ->
  logs (self s) = Some r ->
  exists s',
    parse yaml_load text path lg s = (Raise (AttributeError "NoneType" "line"), s') /\
    self s' = self s /\
    forall r', appended (heap s) (heap s') r' =
               if decide (lg = r') then [debug_entry path] else [].
Proof.
  intros Hload Hl. rewrite (parse_syntax_no_mark _ _ _ _ r _ str_e Hload Hl).
  eexists. split; [done|]. split; [done|]. intros r'. apply appended_sink_append.
Qed.

(** X5. [_parse_yaml_str] catches [MarkedYAMLError] only: any other
    exception of the loader leaves [parse] as it is, with the parser
    unchanged and the debug entry as the only entry appended. *)
Theorem loader_exception_propagates text path lg s e :
  yaml_load (resolved s text) = Raise e ->
  (forall mark str_e, e <> MarkedYAMLError mark str_e) ->
  exists s',
    parse yaml_load text path lg s = (Raise e, s') /\
    self s' = self s /\
    forall r', appended (heap s) (heap s') r' =
               if decide (lg = r') then [debug_entry path] else [].
Proof.
  intros Hload Hne. rewrite (parse_load_raises _ _ _ _ _ e Hload Hne).
  eexists. split; [done|]. split; [done|]. intros r'. apply appended_sink_append.
Qed.

End ParseEdges.

Section PluginPass.

Context (yaml_load : string -> Outcome RuamelObject).
Implicit Types (s : Session) (text path : string) (lg r : SinkRef).

(** X6. The plugin loop has no handler: when a registered plugin raises, the
    exception leaves [parse], the file is already in the registry, the
    plugins registered before it have been called once each, in order, and
    the plugins registered after it are not called. *)
Theorem raising_plugin_ends_the_pass text path lg r s items before p after e :
  yaml_load (resolved s text) = Return (CommentedMap items) ->
  logs (self s) = Some r ->
  plugins (self s) = before ++ p :: after ->
  Forall (fun q => forall h, fst (plugin_parse q (built_file r path text items) h) = Return tt)
    before ->
  (forall h, fst (plugin_parse p (built_file r path text items) h) = Raise e) ->
  exists s',
    parse yaml_load text path lg s = (Raise e, s') /\
    files (self s') = files (self s) ++ [built_file r path text items] /\
    calls s' = calls s ++
      [EvResolve text; EvYamlLoad (resolved s text);
       EvAppendFile (built_file r path text items)] ++
      plugin_events (before ++ [p]) (built_file r path text items).
Proof.
  intros Hload Hl Hps Hbefore Hp.
  rewrite (parse_mapping_wired _ _ _ _ r _ items Hload Hl). cbn zeta.
  set (f := built_file r path text items) in *.
  set (s1 := after_append f path lg text s).
  rewrite Hps, for_each_app, bind_run.
  pose proof (plugins_loop_total before f s1 Hbefore) as Hret.
  destruct (plugins_loop_run before f s1) as (n & h & Hs & Hn).
  destruct (for_each before _ s1) as [o s2]. cbn [fst snd] in *. subst o s2.
  rewrite (Hn eq_refl), firstn_all.
  cbn [for_each]. rewrite bind_run, call_plugin_parse_run, Hp.
  cbn [fst snd self heap calls].
  eexists. split; [done|]. cbn [self calls]. subst s1. cbn [after_append self calls register files].
  split; [done|].
  unfold plugin_events. rewrite map_app. cbn [map].
  by rewrite <- !app_assoc.
Qed.

(** X7. A call of [parse], however it ends, changes nothing of the parser
    but the registry, and the registry only grows: by at most one file, a
    [ParserDataContractFile] carrying the path and the raw text of the
    call. *)
Theorem parse_only_adds_data_contract_files text path lg s :
  let s' := snd (parse yaml_load text path lg s) in
  plugins (self s') = plugins (self s) /\
  variable_resolver (self s') = variable_resolver (self s) /\
  logs (self s') = logs (self s) /\
  exists added,
    files (self s') = files (self s) ++ added /\
    length added <= 1 /\
    Forall (fun f => file_class f = ParserDataContractFile /\
                     file_path f = path /\ file_content_str f = text) added.
Proof.
  intros s'. subst s'.
  destruct (parse_shape yaml_load text path lg s) as (rest & _ & Hcase).
  cbn zeta in Hcase.
  destruct Hcase as [[_ ->]|(r & items & n & _ & _ & _ & -> & _)].
  - split_and!; try done. exists []. rewrite app_nil_r. split_and!; [done|cbn; lia|constructor].
  - split_and!; try done. exists [built_file r path text items].
    split_and!; [done|cbn; lia|]. by repeat constructor.
Qed.

End PluginPass.

(** ** Further properties of the validators *)

Lemma flat_map_nil {A B} (g : A -> list B) (xs : list A) :
  (forall x, x ∈ xs -> g x = []) -> flat_map g xs = [].
Proof.
  induction xs as [|x xs IH]; intros Hg; [done|].
  cbn. rewrite (Hg x) by left. apply IH. intros y Hy. apply Hg. by right.
Qed.

Lemma duplicate_diagnostics_elem fs e :
  e ∈ duplicate_diagnostics fs <->
  exists k loc,
    loc ∈ declaration_sites k fs /\
    1 < length (declaration_sites k fs) /\
    e = error_entry (duplicate_message k (length (declaration_sites k fs))) loc.
Proof.
  rewrite duplicate_diagnostics_spec, list_elem_of_In, in_flat_map. split.
  - intros (k & _ & He%list_elem_of_In).
    destruct (decide (1 < length (declaration_sites k fs))) as [Hlen|];
      [|by apply elem_of_nil in He].
    apply list_elem_of_fmap in He as (loc & -> & Hloc). by exists k, loc.
  - intros (k & loc & Hloc & Hlen & ->). exists k. split.
    + apply list_elem_of_In.
      destruct (decide (k ∈ dict_keys (declarations fs))) as [|Hnin]; [done|].
      apply dict_get_None in Hnin. rewrite dict_get_declarations in Hnin.
      destruct (declaration_sites k fs); [by apply elem_of_nil in Hloc|done].
    + apply list_elem_of_In. rewrite decide_True by done.
      apply list_elem_of_fmap. by exists loc.
Qed.

Lemma fold_collect_no_datasource fs d :
  Forall (fun f => file_class f = ParserDataContractFile) fs ->
  fold_left collect_declaration fs d = d.
Proof.
  revert d. induction fs as [|f fs IH]; intros d Hall; [done|].
  apply Forall_cons in Hall as [Hc Hall]. cbn [fold_left].
  unfold collect_declaration at 2. rewrite decide_False by (rewrite Hc; discriminate).
  by apply IH.
Qed.

Lemma validation_diagnostics_contracts_only fs :
  Forall (fun f => file_class f = ParserDataContractFile) fs ->
  validation_diagnostics fs =
  flat_map
    (fun f => match datasource f with
              | Some ds => [error_entry (undefined_message (value ds)) (ys_location ds)]
              | None => []
              end)
    fs.
Proof.
  intros Hall. unfold validation_diagnostics, duplicate_diagnostics, undefined_diagnostics,
    declarations.
  rewrite (fold_collect_no_datasource fs [] Hall). cbn [filter flat_map app dict_keys map].
  apply flat_map_ext_in. intros f Hf. unfold undefined_entries.
  rewrite Forall_forall in Hall. rewrite decide_True by by apply Hall.
  destruct (datasource f) as [ds|]; [|done].
  rewrite bool_decide_eq_false_2; [done|apply not_elem_of_nil].
Qed.

(** X8. The first loop of [_validate_datasource_names] leaves in
    [datasource_locations], for every name, the locations of the [name]
    fields of the datasource files declaring it, in registry order; a name
    that no datasource file declares as a string is not a key, and no key
    occurs twice. *)
Theorem datasource_locations_collects_sites fs :
  NoDup (dict_keys (fold_left collect_declaration fs [])) /\
  forall k,
    dict_get (fold_left collect_declaration fs []) k =
    match declaration_sites k fs with
    | [] => None
    | sites => Some sites
    end.
Proof.
  split; [apply (NoDup_keys_declarations fs)|].
  intros k. apply (dict_get_declarations fs k).
Qed.


(** X10. On a parser whose [logs] attribute is sink [r], the entries that
    [validate_semantics] appends to [r] are exactly: for a name with more
    than one declaration site, an error at each site citing the name and the
    number of sites; and for a data contract file whose [datasource] is a
    string that no datasource file of the registry declares (before or after
    it), an error at the reference citing the name. *)
Theorem validate_semantics_reports_exactly s r s' e :
  logs (self s) = Some r ->
  validate_semantics s = (Return tt, s') ->
  e ∈ appended (heap s) (heap s') r <->
  (exists k loc,
     loc ∈ declaration_sites k (files (self s)) /\
     1 < length (declaration_sites k (files (self s))) /\
     e = error_entry (duplicate_message k (length (declaration_sites k (files (self s))))) loc) \/
  (exists f ds,
     f ∈ files (self s) /\ file_class f = ParserDataContractFile /\ datasource f = Some ds /\
     (forall g n, g ∈ files (self s) -> file_class g = ParserDatasourceFile ->
                  name g = Some n -> value n <> value ds) /\
     e = error_entry (undefined_message (value ds)) (ys_location ds)).
Proof.
  intros Hl Hrun.
  destruct (validate_semantics_wired s r Hl) as (s1 & Hrun1 & _ & _ & Happ).
  rewrite Hrun in Hrun1. inversion Hrun1; subst s1.
  rewrite Happ, decide_True by done. unfold validation_diagnostics.
  rewrite elem_of_app, duplicate_diagnostics_elem, undefined_diagnostics_spec. done.
Qed.

(** X11. While the registry holds data contract files only, nothing is
    declared: on a parser whose [logs] attribute is sink [r],
    [validate_semantics] reports no duplicate and reports every file whose
    [datasource] is a string as referring to an undefined datasource, in
    registry order. *)
Theorem contracts_only_registry_reports_every_reference s r :
  logs (self s) = Some r ->
  Forall (fun f => file_class f = ParserDataContractFile) (files (self s)) ->
  exists s',
    validate_semantics s = (Return tt, s') /\
    appended (heap s) (heap s') r =
    flat_map
      (fun f => match datasource f with
                | Some ds => [error_entry (undefined_message (value ds)) (ys_location ds)]
                | None => []
                end)
      (files (self s)).
Proof.
  intros Hl Hall.
  destruct (validate_semantics_wired s r Hl) as (s' & Hrun & _ & _ & Happ).
  exists s'. split; [done|]. rewrite Happ, decide_True by done.
  by apply validation_diagnostics_contracts_only.
Qed.

(** X12. When no name has more than one declaration site and every string
    reference of a data contract file is declared by some datasource file,
    [validate_semantics] returns and leaves the whole session as it was; it
    does so even on a parser without the [logs] attribute, which is only read
    when there is something to report. *)
Theorem validate_semantics_without_findings_is_silent s :
  (forall k, length (declaration_sites k (files (self s))) <= 1) ->
  (forall f ds, f ∈ files (self s) -> file_class f = ParserDataContractFile ->
                datasource f = Some ds ->
                exists g n, g ∈ files (self s) /\ file_class g = ParserDatasourceFile /\
                            name g = Some n /\ value n = value ds) ->
  validate_semantics s = (Return tt, s).
Proof.
  intros Hdup Hdef. rewrite validate_semantics_run.
  assert (validation_diagnostics (files (self s)) = []) as ->; [|done].
  unfold validation_diagnostics. rewrite duplicate_diagnostics_spec.
  rewrite (flat_map_nil _ (dict_keys _)); [cbn [app]|].
  - apply flat_map_nil. intros f Hf.
    destruct (decide (file_class f = ParserDataContractFile)) as [Hc|Hc];
      [|apply undefined_entries_skipped; by left].
    destruct (datasource f) as [ds|] eqn:Hds;
      [|apply undefined_entries_skipped; by right].
    destruct (Hdef f ds Hf Hc Hds) as (g & n & Hg & Hgc & Hn & Hv).
    by apply (undefined_entries_declared _ f ds g n).
  - intros k _. rewrite decide_False; [done|].
    specialize (Hdup k). lia.
Qed.

(** ** Sessions of several documents *)

Lemma validate_semantics_sinks s r :
  logs (self s) = Some r ->
  exists s',
    validate_semantics s = (Return tt, s') /\
    self s' = self s /\
    forall r', sink_of (heap s') r' =
               sink_of (heap s) r' ++
               if decide (r = r') then validation_diagnostics (files (self s)) else [].
Proof.
  intros Hl. rewrite validate_semantics_run, Hl.
  destruct (validation_diagnostics (files (self s))) as [|d ds] eqn:HD.
  - exists s. split_and!; try done. intros r'.
    destruct (decide (r = r')); by rewrite app_nil_r.
  - eexists. split_and!; try done. intros r'. cbn [set_heap heap].
    apply sink_of_append.
Qed.

Section Sessions.

Context (yaml_load : string -> Outcome RuamelObject).
Context (items : string -> list (string * (nat * nat) * RuamelObject)).
Implicit Types (s : Session) (lg r : SinkRef) (inputs : list (string * string)).

Lemma parse_all_run inputs lg r s :
  logs (self s) = Some r ->
  plugins (self s) = [] ->
  (forall input, input ∈ inputs ->
     yaml_load (resolved s input.1) = Return (CommentedMap (items input.1))) ->
  exists s',
    parse_all yaml_load inputs lg s = (Return tt, s') /\
    files (self s') =
      files (self s) ++ map (fun input => built_file r input.2 input.1 (items input.1)) inputs /\
    plugins (self s') = [] /\
    logs (self s') = Some r /\
    variable_resolver (self s') = variable_resolver (self s) /\
    forall r', sink_of (heap s') r' =
               sink_of (heap s) r' ++
               if decide (lg = r') then map (fun input => debug_entry input.2) inputs else [].
Proof.
  revert s. induction inputs as [|[text path] inputs IH]; intros s Hl Hps Hload.
  - exists s. split_and!; try done; [by rewrite app_nil_r|].
    intros r'. destruct (decide (lg = r')); by rewrite app_nil_r.
  - unfold parse_all. cbn [for_each fst snd]. rewrite !bind_run.
    rewrite (parse_mapping_wired yaml_load text path lg r s (items text)
               (Hload (text, path) ltac:(left)) Hl). cbn zeta.
    rewrite Hps. cbn [for_each ret fst snd].
    set (f := built_file r path text (items text)).
    set (s1 := after_append f path lg text s).
    destruct (IH s1) as (s' & Hrun & Hfiles & Hps' & Hl' & Hres & Hsinks).
    + done.
    + done.
    + intros input Hin. unfold resolved. cbn [s1 after_append self register variable_resolver].
      apply Hload. by right.
    + exists s'. unfold parse_all in Hrun. rewrite Hrun.
      split_and!; try done.
      * rewrite Hfiles. cbn [s1 after_append self register files map fst snd].
        by rewrite <- app_assoc.
      * intros r'. rewrite Hsinks. cbn [s1 after_append heap].
        rewrite sink_of_append, <- app_assoc. f_equal.
        by destruct (decide (lg = r')).
Qed.

(** X13. On a parser whose [logs] attribute is sink [r] and that has no
    plugins, parsing a list of documents that all load as mappings returns,
    registers one data contract file per document in call order (whatever was
    registered before stays in front), and appends to the caller's sink one
    debug entry per document, in call order, and nothing to any other
    sink. *)
Theorem parse_all_registers_in_call_order inputs lg r s :
  logs (self s) = Some r ->
  plugins (self s) = [] ->
  (forall input, input ∈ inputs ->
     yaml_load (resolved s input.1) = Return (CommentedMap (items input.1))) ->
  exists s',
    parse_all yaml_load inputs lg s = (Return tt, s') /\
    files (self s') =
      files (self s) ++ map (fun input => built_file r input.2 input.1 (items input.1)) inputs /\
    forall r', appended (heap s) (heap s') r' =
               if decide (lg = r') then map (fun input => debug_entry input.2) inputs else [].
Proof.
  intros Hl Hps Hload.
  destruct (parse_all_run inputs lg r s Hl Hps Hload) as (s' & Hrun & Hfiles & _ & _ & _ & Hs).
  exists s'. split_and!; try done. intros r'. apply appended_of_sink, Hs.
Qed.

(** X14. A session that fills an empty registry through [parse] alone and
    then validates (parser without plugins, [logs] attribute sink [r]):
    every document whose top-level [datasource] is a string is reported as
    referring to an undefined datasource, in call order, whatever the other
    documents of the session contain, since every document is registered as a
    data contract file; no duplicate is ever reported. *)
Theorem session_reports_every_reference inputs lg r s :
  logs (self s) = Some r ->
  plugins (self s) = [] ->
  files (self s) = [] ->
  (forall input, input ∈ inputs ->
     yaml_load (resolved s input.1) = Return (CommentedMap (items input.1))) ->
  exists s',
    (parse_all yaml_load inputs lg ;;; validate_semantics) s = (Return tt, s') /\
    forall r',
      appended (heap s) (heap s') r' =
      (if decide (lg = r') then map (fun input => debug_entry input.2) inputs else []) ++
      (if decide (r = r') then
         flat_map
           (fun input =>
              match datasource (built_file r input.2 input.1 (items input.1)) with
              | Some ds => [error_entry (undefined_message (value ds)) (ys_location ds)]
              | None => []
              end)
           inputs
       else []).
Proof.
  intros Hl Hps Hfs Hload.
  destruct (parse_all_run inputs lg r s Hl Hps Hload)
    as (s1 & Hrun & Hfiles & _ & Hl1 & _ & Hs1).
  destruct (validate_semantics_sinks s1 r Hl1) as (s2 & Hval & _ & Hs2).
  exists s2. rewrite bind_run, Hrun. split; [done|].
  intros r'. apply appended_of_sink. rewrite Hs2, Hs1, <- app_assoc. do 2 f_equal.
  destruct (decide (r = r')); [|done].
  rewrite Hfiles, Hfs. cbn [app].
  rewrite validation_diagnostics_contracts_only.
  - by rewrite flat_map_map.
  - apply Forall_forall. intros f (input & -> & _)%list_elem_of_fmap. done.
Qed.

End Sessions.

(** * The further properties at concrete inputs *)

Lemma parse_registers_data_contract_file_witness :
  exists s',
    parse ruamel_sample "datasource: db1" "contract.yml" 7
      (configured 0 [noting_plugin 1 0] []) = (Return None, s') /\
    map file_logs (files (self s')) = [0].
Proof.
  destruct (parse_registers_data_contract_file ruamel_sample
              "datasource: db1" "contract.yml" 7 0 (configured 0 [noting_plugin 1 0] [])
              [("datasource", (0, 12), PyStr "str" "db1")])
    as (s' & f & Hrun & Hfiles & _ & Hlogs & _).
  - reflexivity.
  - reflexivity.
  - repeat constructor.
  - exists s'. split; [exact Hrun|]. rewrite Hfiles. simpl. by rewrite Hlogs.
Defined.

Lemma syntax_error_is_followed_by_structural_error_witness :
  exists s',
    parse ruamel_sample "a: [" "broken.yml" 0 (configured 1 [] []) = (Return None, s') /\
    appended (heap (configured 1 [] [])) (heap s') 0 =
      [debug_entry "broken.yml"; structural_entry PyNone] /\
    appended (heap (configured 1 [] [])) (heap s') 1 =
      [syntax_entry "broken.yml" 0 4 "while parsing a flow node"].
Proof.
  destruct (syntax_error_is_followed_by_structural_error ruamel_sample
              "a: [" "broken.yml" 0 1 (configured 1 [] []) 0 4 "while parsing a flow node")
    as (s' & Hrun & _ & Happ).
  - reflexivity.
  - reflexivity.
  - exists s'. split; [exact Hrun|]. split; rewrite Happ; reflexivity.
Defined.

Lemma syntax_error_without_mark_raises_witness :
  exists s',
    parse (fun _ => Raise (MarkedYAMLError None "could not determine a constructor"))
      "!x 1" "tagged.yml" 0 (configured 0 [] []) =
    (Raise (AttributeError "NoneType" "line"), s').
Proof.
  destruct (syntax_error_without_mark_raises
              (fun _ => Raise (MarkedYAMLError None "could not determine a constructor"))
              "!x 1" "tagged.yml" 0 0 (configured 0 [] []) "could not determine a constructor")
    as (s' & Hrun & _).
  - reflexivity.
  - reflexivity.
  - exists s'. exact Hrun.
Defined.

Lemma loader_exception_propagates_witness :
  exists s',
    parse (fun _ => Raise (OtherException "RecursionError")) "a: 1" "deep.yml" 0
      fresh_session = (Raise (OtherException "RecursionError"), s') /\
    self s' = self fresh_session.
Proof.
  destruct (loader_exception_propagates (fun _ => Raise (OtherException "RecursionError"))
              "a: 1" "deep.yml" 0 fresh_session (OtherException "RecursionError"))
    as (s' & Hrun & Hself & _).
  - reflexivity.
  - discriminate.
  - exists s'. split; [exact Hrun|exact Hself].
Defined.

Lemma raising_plugin_ends_the_pass_witness :
  exists s',
    parse ruamel_sample "datasource: db1" "contract.yml" 0
      (configured 0 [noting_plugin 1 0; failing_plugin 2; noting_plugin 3 0] []) =
    (Raise (OtherException "RuntimeError"), s') /\
    length (files (self s')) = 1.
Proof.
  destruct (raising_plugin_ends_the_pass ruamel_sample "datasource: db1" "contract.yml" 0 0
              (configured 0 [noting_plugin 1 0; failing_plugin 2; noting_plugin 3 0] [])
              [("datasource", (0, 12), PyStr "str" "db1")]
              [noting_plugin 1 0] (failing_plugin 2) [noting_plugin 3 0]
              (OtherException "RuntimeError"))
    as (s' & Hrun & Hfiles & _).
  - reflexivity.
  - reflexivity.
  - reflexivity.
  - repeat constructor.
  - reflexivity.
  - exists s'. split; [exact Hrun|]. rewrite Hfiles. reflexivity.
Defined.


Lemma validate_semantics_reports_exactly_witness :
  error_entry "Datasource 'db2' is not defined"
    {| loc_file_path := "c.yml"; line := 0; column := 12 |}
  ∈ appended (heap (configured 0 [] [contract_file "c.yml" "db2" 0 12]))
      (heap (snd (validate_semantics (configured 0 [] [contract_file "c.yml" "db2" 0 12])))) 0.
Proof.
  apply (validate_semantics_reports_exactly
           (configured 0 [] [contract_file "c.yml" "db2" 0 12]) 0
           (snd (validate_semantics (configured 0 [] [contract_file "c.yml" "db2" 0 12])))).
  - reflexivity.
  - reflexivity.
  - right. exists (contract_file "c.yml" "db2" 0 12),
      {| value := "db2";
         ys_location := {| loc_file_path := "c.yml"; line := 0; column := 12 |} |}.
    split; [simpl; left|]. split; [reflexivity|]. split; [reflexivity|].
    split; [|reflexivity].
    simpl. intros g n Hg Hc. apply list_elem_of_singleton in Hg. subst g. discriminate Hc.
Defined.

Lemma contracts_only_registry_reports_every_reference_witness :
  exists s',
    validate_semantics
      (configured 0 [] [contract_file "c1.yml" "db1" 0 12; contract_file "c2.yml" "db2" 0 12])
      = (Return tt, s') /\
    length (appended ∅ (heap s') 0) = 2.
Proof.
  destruct (contracts_only_registry_reports_every_reference
              (configured 0 [] [contract_file "c1.yml" "db1" 0 12;
                                contract_file "c2.yml" "db2" 0 12]) 0)
    as (s' & Hrun & Happ).
  - reflexivity.
  - repeat constructor.
  - exists s'. split; [exact Hrun|]. simpl in Happ. rewrite Happ. reflexivity.
Defined.

Lemma validate_semantics_without_findings_is_silent_witness :
  validate_semantics
    (unconfigured [contract_file "c.yml" "db1" 0 12; datasource_file "ds.yml" "db1" 0 6]) =
  (Return tt,
   unconfigured [contract_file "c.yml" "db1" 0 12; datasource_file "ds.yml" "db1" 0 6]).
Proof.
  apply validate_semantics_without_findings_is_silent.
  - intros k. simpl. unfold declaration_sites. simpl.
    destruct (decide ("db1" = k)); simpl; lia.
  - simpl. intros f ds Hf Hc Hds.
    exists (datasource_file "ds.yml" "db1" 0 6),
      {| value := "db1";
         ys_location := {| loc_file_path := "ds.yml"; line := 0; column := 6 |} |}.
    split; [right; left|]. split; [reflexivity|]. split; [reflexivity|].
    apply elem_of_cons in Hf as [->|Hf].
    + inversion Hds. reflexivity.
    + apply list_elem_of_singleton in Hf. subst f. discriminate Hc.
Defined.

Lemma parse_all_registers_in_call_order_witness :
  exists s',
    parse_all ruamel_sample [("name: db1", "ds.yml"); ("datasource: db1", "c.yml")] 0
      (configured 0 [] []) = (Return tt, s') /\
    map file_path (files (self s')) = ["ds.yml"; "c.yml"].
Proof.
  destruct (parse_all_registers_in_call_order ruamel_sample sample_items
              [("name: db1", "ds.yml"); ("datasource: db1", "c.yml")] 0 0 (configured 0 [] []))
    as (s' & Hrun & Hfiles & _).
  - reflexivity.
  - reflexivity.
  - intros input Hin. apply elem_of_cons in Hin as [->|Hin]; [reflexivity|].
    apply list_elem_of_singleton in Hin. subst input. reflexivity.
  - exists s'. split; [exact Hrun|]. rewrite Hfiles. reflexivity.
Defined.

Lemma session_reports_every_reference_witness :
  exists s',
    (parse_all ruamel_sample [("name: db1", "ds.yml"); ("datasource: db1", "c.yml")] 1 ;;;
     validate_semantics) (configured 0 [] []) = (Return tt, s') /\
    appended ∅ (heap s') 0 =
      [error_entry "Datasource 'db1' is not defined"
         {| loc_file_path := "c.yml"; line := 0; column := 12 |}].
Proof.
  destruct (session_reports_every_reference ruamel_sample sample_items
              [("name: db1", "ds.yml"); ("datasource: db1", "c.yml")] 1 0 (configured 0 [] []))
    as (s' & Hrun & Happ).
  - reflexivity.
  - reflexivity.
  - reflexivity.
  - intros input Hin. apply elem_of_cons in Hin as [->|Hin]; [reflexivity|].
    apply list_elem_of_singleton in Hin. subst input. reflexivity.
  - exists s'. split; [exact Hrun|]. simpl in Happ. rewrite Happ. reflexivity.
Defined.

(** * The reference check on the sessions the parser can be in *)

(** ** A registry with a file needs [logs] *)

Lemma init_registry_needs_logs vr h c :
  registry_needs_logs {| self := __init__ vr; heap := h; calls := c |}.
Proof. by intros _. Qed.

Lemma parse_keeps_registry_needs_logs yaml_load text path lg s :
  registry_needs_logs s ->
  registry_needs_logs (snd (parse yaml_load text path lg s)).
Proof.
  intros Hinv.
  destruct (parse_shape yaml_load text path lg s) as (rest & _ & Hcase). cbn zeta in Hcase.
  destruct Hcase as [[_ Hself]|(r & items & n & Hl & _ & _ & Hself & _)];
    unfold registry_needs_logs; rewrite Hself; [done|].
  cbn [register logs]. by rewrite Hl.
Qed.

Lemma validate_semantics_keeps_parser s : self (snd (validate_semantics s)) = self s.
Proof.
  rewrite validate_semantics_run.
  by destruct (validation_diagnostics (files (self s))), (logs (self s)).
Qed.

Lemma validate_semantics_keeps_registry_needs_logs s :
  registry_needs_logs s ->
  registry_needs_logs (snd (validate_semantics s)).
Proof. unfold registry_needs_logs. by rewrite validate_semantics_keeps_parser. Qed.

(** ** C6 *)

(** C6. In every session in which a non-empty registry goes with an assigned
    [logs] attribute (the sessions that calls of [parse] and
    [validate_semantics] lead to), [validate_semantics] returns, leaves the
    parser as it was and appends, to the sink of [self.logs] only, the
    duplicate errors followed by the report of each file in registry order.
    The report of a data contract file whose [datasource] is a string is
    exactly one error, at the location of the reference and naming the
    datasource, when no datasource file of the registry declares that name,
    and is empty when one does; the report of any other file is empty. *)
Theorem undefined_references_reported_once s :
  registry_needs_logs s ->
  exists s' duplicates report,
    validate_semantics s = (Return tt, s') /\
    self s' = self s /\
    (forall r', appended (heap s) (heap s') r' =
                if decide (logs (self s) = Some r')
                then duplicates ++ flat_map report (files (self s))
                else []) /\
    (forall e, e ∈ duplicates ->
       exists k loc,
         loc ∈ declaration_sites k (files (self s)) /\
         1 < length (declaration_sites k (files (self s))) /\
         e = error_entry
               (duplicate_message k (length (declaration_sites k (files (self s))))) loc) /\
    (forall f ds,
       f ∈ files (self s) -> file_class f = ParserDataContractFile -> datasource f = Some ds ->
       (forall g n, g ∈ files (self s) -> file_class g = ParserDatasourceFile ->
                    name g = Some n -> value n <> value ds) ->
       report f = [error_entry (undefined_message (value ds)) (ys_location ds)]) /\
    (forall f ds,
       f ∈ files (self s) -> file_class f = ParserDataContractFile -> datasource f = Some ds ->
       (exists g n, g ∈ files (self s) /\ file_class g = ParserDatasourceFile /\
                    name g = Some n /\ value n = value ds) ->
       report f = []) /\
    (forall f,
       f ∈ files (self s) ->
       file_class f <> ParserDataContractFile \/ datasource f = None ->
       report f = []).
Proof.
  intros Hinv.
  assert (exists s',
            validate_semantics s = (Return tt, s') /\ self s' = self s /\
            forall r', appended (heap s) (heap s') r' =
                       if decide (logs (self s) = Some r')
                       then validation_diagnostics (files (self s)) else [])
    as (s' & Hrun & Hself & Happ).
  { destruct (logs (self s)) as [r|] eqn:Hl.
    - destruct (validate_semantics_wired s r Hl) as (s' & Hrun & Hself & _ & Happ).
      exists s'. split_and!; try done. intros r'. rewrite Happ.
      destruct (decide (r = r')) as [->|Hne].
      + by rewrite decide_True.
      + rewrite decide_False; [done|]. intros Heq. by inversion Heq.
    - exists s. rewrite validate_semantics_run, (Hinv Hl), Hl.
      split_and!; try done. intros r'. by rewrite appended_same. }
  exists s', (duplicate_diagnostics (files (self s))),
    (undefined_entries (dict_keys (declarations (files (self s))))).
  split_and!; try done.
  - intros e He. by apply duplicate_diagnostics_elem.
  - intros f ds _ Hc Hds Hundef. by apply undefined_entries_undeclared.
  - intros f ds _ Hc Hds (g & n & Hg & Hgc & Hn & Hv).
    by apply (undefined_entries_declared _ f ds g n).
  - intros f _ Hskip. by apply undefined_entries_skipped.
Qed.

(** * Reference check, resolver and plugin pass at concrete inputs *)

Lemma undefined_references_reported_once_witness :
  exists s',
    validate_semantics
      (configured 0 [] [datasource_file "ds.yml" "db1" 0 6;
                        contract_file "c1.yml" "db1" 0 12;
                        contract_file "c2.yml" "db2" 3 12]) = (Return tt, s') /\
    appended ∅ (heap s') 0 =
      [error_entry "Datasource 'db2' is not defined"
         {| loc_file_path := "c2.yml"; line := 3; column := 12 |}].
Proof.
  destruct (undefined_references_reported_once
              (configured 0 [] [datasource_file "ds.yml" "db1" 0 6;
                                contract_file "c1.yml" "db1" 0 12;
                                contract_file "c2.yml" "db2" 3 12]))
    as (s' & duplicates & report & Hrun & _).
  - intros Hlogs. discriminate Hlogs.
  - exists s'. split; [exact Hrun|].
    pose proof (f_equal snd Hrun) as Hs. cbn [snd] in Hs. rewrite <- Hs.
    vm_compute. reflexivity.
Defined.

Lemma parse_loads_resolved_text_and_keeps_raw_text_witness :
  exists s',
    parse ruamel_sample "datasource: ${DS}" "contract.yml" 0
      (configured_with sample_resolver 0 [] []) = (Return None, s') /\
    map file_content_str (files (self s')) = ["datasource: ${DS}"] /\
    map (fun f => ruamel_object (root_yaml_object f)) (files (self s')) =
      [[("datasource", (0, 12), PyStr "str" "db1")]].
Proof.
  destruct (proj1 (proj2 (parse_loads_resolved_text_and_keeps_raw_text ruamel_sample
                            "datasource: ${DS}" "contract.yml" 0
                            (configured_with sample_resolver 0 [] [])))
              0 [("datasource", (0, 12), PyStr "str" "db1")])
    as (s' & f & Hrun & Hfiles & Hcontent & Hroot).
  - reflexivity.
  - reflexivity.
  - constructor.
  - exists s'. split; [exact Hrun|]. rewrite Hfiles. simpl.
    rewrite Hcontent, Hroot. split; reflexivity.
Defined.

Lemma plugins_applied_once_in_order_after_append_witness :
  exists s',
    parse ruamel_sample "datasource: db1" "contract.yml" 0
      (configured 0 [labelled_plugin 1 "first" 0; labelled_plugin 2 "second" 0] []) =
    (Return None, s') /\
    sink_of (heap s') 0 =
      [debug_entry "contract.yml";
       {| severity := Warning; message := "first saw contract.yml";
          location := None; docs_ref := None |};
       {| severity := Warning; message := "second saw contract.yml";
          location := None; docs_ref := None |}] /\
    calls s' =
      [EvResolve "datasource: db1"; EvYamlLoad "datasource: db1";
       EvAppendFile (built_file 0 "contract.yml" "datasource: db1"
                       [("datasource", (0, 12), PyStr "str" "db1")]);
       EvPluginParse 1 (built_file 0 "contract.yml" "datasource: db1"
                          [("datasource", (0, 12), PyStr "str" "db1")]);
       EvPluginParse 2 (built_file 0 "contract.yml" "datasource: db1"
                          [("datasource", (0, 12), PyStr "str" "db1")])].
Proof.
  destruct (proj2 (plugins_applied_once_in_order_after_append ruamel_sample
                     "datasource: db1" "contract.yml" 0
                     (configured 0 [labelled_plugin 1 "first" 0;
                                    labelled_plugin 2 "second" 0] []))
              0 [("datasource", (0, 12), PyStr "str" "db1")])
    as (s' & Hrun & _ & Hcalls & Hheap).
  - reflexivity.
  - reflexivity.
  - repeat constructor.
  - exists s'. split; [exact Hrun|]. rewrite Hheap, Hcalls. split; reflexivity.
Defined.
